(** * Face liveness detector: validators, face selection and orchestration

    A shallow embedding of the TypeScript sources

      - [lib/poseAnalyzer.ts]     ([extractHeadPose])
      - [lib/faceSelector.ts]     ([faceArea], [selectLargestFace])
      - [lib/blinkDetector.ts]    ([BlinkDetector])
      - [lib/motionValidator.ts]  ([MotionValidator])
      - [hooks/useFaceLiveness.ts] ([advanceStep], [failStep],
        [startChallenge], [reset], [detectLoop])

    Conventions of the embedding.

    - A JavaScript [number] is an exact rational ([Q]); the decimal
      constants of the sources ([0.12], [0.30], ...) are the rationals they
      denote, [Math.abs], [Math.min] and [Math.max] are [Qabs], [Qmin] and
      [Qmax].  Every divisor in the sources is a non-zero constant, a
      guarded quantity or a window length minus one (at least 5), so the
      convention [x / 0 == 0] of [Q] is never exercised.  Rounding,
      infinities and NaN of IEEE doubles are outside the model.
    - Integer quantities (frame counters, array indices) are [nat];
      [Date.now()] is an integer number of milliseconds ([Z]).
    - Indexing an array out of range gives [undefined] in JavaScript and
      reading a property of [undefined] throws a [TypeError]; functions that
      can do so live in the error monad [exn].
    - Class instances and React refs are records threaded explicitly through
      the functions that mutate them. *)

From Stdlib Require Import QArith Qabs Qminmax Lqa ZArith Lia.
From stdpp Require Import base option list strings.

Local Open Scope Q_scope.

(** ** Numbers *)

(** [a > b] on numbers. *)
Definition Qgtb (a b : Q) : bool := negb (Qle_bool a b).
(** [a < b] on numbers. *)
Definition Qltb (a b : Q) : bool := Qgtb b a.
(** [a >= b] on numbers. *)
Definition Qgeb (a b : Q) : bool := Qle_bool b a.

(** ** Exceptions *)

(** The outcome of a call: a returned value, or an uncaught [TypeError]
    (property access on [undefined]). *)
Inductive exn (A : Type) : Type :=
| Return (a : A)
| TypeError.
Arguments Return {A} a.
Arguments TypeError {A}.

Definition bind {A B : Type} (m : exn A) (k : A -> exn B) : exn B :=
  match m with
  | Return a => k a
  | TypeError => TypeError
  end.

Notation "x <- m ; k" := (bind m (fun x => k))
  (at level 20, m at level 100, k at level 200, only parsing).

(** [a[i].field...]: the element at index [i], throwing when it is
    [undefined]. *)
Definition at_index {A : Type} (a : list A) (i : nat) : exn A :=
  match a !! i with
  | Some x => Return x
  | None => TypeError
  end.

(** ** Landmarks (external contract of the inference engine) *)

Record NormalizedLandmark : Type := {
  x : Q;
  y : Q;
  z : Q;
}.

Abbreviation Landmarks := (list NormalizedLandmark).

(** ** lib/poseAnalyzer.ts *)

Record Point2 : Type := { px : Q; py : Q }.

Record HeadPose : Type := {
  yaw : Q;
  pitch : Q;
  noseTip : Point2;
}.

Module PoseIDX.
Definition NOSE_TIP : nat := 1.
Definition LEFT_EYE_OUTER : nat := 33.
Definition RIGHT_EYE_OUTER : nat := 263.
Definition CHIN : nat := 152.
Definition FOREHEAD : nat := 10.
End PoseIDX.

Definition extractHeadPose (landmarks : Landmarks) : exn HeadPose :=
  nose <- at_index landmarks PoseIDX.NOSE_TIP;
  leftEye <- at_index landmarks PoseIDX.LEFT_EYE_OUTER;
  rightEye <- at_index landmarks PoseIDX.RIGHT_EYE_OUTER;
  chin <- at_index landmarks PoseIDX.CHIN;
  forehead <- at_index landmarks PoseIDX.FOREHEAD;
  let eyeMidX := (x leftEye + x rightEye) / 2 in
  let interEyeDistance := Qabs (x rightEye - x leftEye) in
  let yaw := if Qgtb interEyeDistance 0.001
             then (x nose - eyeMidX) / interEyeDistance
             else 0 in
  let eyeMidY := (y leftEye + y rightEye) / 2 in
  let faceHeight := Qabs (y chin - y forehead) in
  let pitch := if Qgtb faceHeight 0.001
               then (y nose - eyeMidY) / faceHeight
               else 0 in
  Return {| yaw := yaw; pitch := pitch;
            noseTip := {| px := x nose; py := y nose |} |}.

(** ** lib/faceSelector.ts *)

Record Category : Type := {
  categoryName : string;
  score : Q;
}.

Record Classifications : Type := {
  categories : list Category;
}.

Record SelectedFace : Type := {
  landmarks : Landmarks;
  (** [Classifications[] | undefined]; an element is [None] when the
      wrapped [faceBlendshapes[bestIndex]] is [undefined]. *)
  blendshapes : option (list (option Classifications));
  faceIndex : nat;
}.

Module FaceIDX.
Definition FOREHEAD : nat := 10.
Definition CHIN : nat := 152.
Definition LEFT_CHEEK : nat := 234.
Definition RIGHT_CHEEK : nat := 454.
End FaceIDX.

Definition faceArea (landmarks : Landmarks) : exn Q :=
  top <- at_index landmarks FaceIDX.FOREHEAD;
  bottom <- at_index landmarks FaceIDX.CHIN;
  left <- at_index landmarks FaceIDX.LEFT_CHEEK;
  right <- at_index landmarks FaceIDX.RIGHT_CHEEK;
  let width := Qabs (x right - x left) in
  let height := Qabs (y bottom - y top) in
  Return (width * height).

(** The [for] loop of [selectLargestFace], entered at index [i] with the
    faces [faceLandmarks[i..]] still to visit. *)
Fixpoint scanFaces (rest : list Landmarks) (i bestIndex : nat) (bestArea : Q)
  : exn (nat * Q) :=
  match rest with
  | [] => Return (bestIndex, bestArea)
  | face :: rest' =>
      area <- faceArea face;
      if Qgtb area bestArea
      then scanFaces rest' (S i) i area
      else scanFaces rest' (S i) bestIndex bestArea
  end.

(** [faceLandmarks] is never [null] for a caller that respects the declared
    type; [faceBlendshapes] may be absent.  [faceLandmarks[bestIndex]] is
    always in range ([scanFaces_index_lt]); the default of [nth] is never
    used. *)
Definition selectLargestFace (faceLandmarks : list Landmarks)
    (faceBlendshapes : option (list Classifications))
  : exn (option SelectedFace) :=
  if (length faceLandmarks =? 0)%nat then Return None
  else
    best <- scanFaces faceLandmarks 0 0 (-1);
    let bestIndex := fst best in
    Return (Some {|
      landmarks := nth bestIndex faceLandmarks [];
      blendshapes :=
        match faceBlendshapes with
        | Some bs => Some [bs !! bestIndex]
        | None => None
        end;
      faceIndex := bestIndex |}).

(** ** lib/blinkDetector.ts *)

Definition BLINK_THRESHOLD : Q := 0.4.
Definition OPEN_THRESHOLD : Q := 0.2.

Inductive BlinkPhase : Type := waiting | eyes_closed | detected.

Module BlinkDetector.

Record t : Type := { phase : BlinkPhase }.

Definition new : t := {| phase := waiting |}.

Definition reset (self : t) : t := {| phase := waiting |}.

Definition isDetected (self : t) : bool :=
  match phase self with detected => true | _ => false end.

(** [shapes.find(c => c.categoryName === name)] *)
Definition findCategory (name : string) (shapes : list Category)
  : option Category :=
  List.find (fun c => String.eqb (categoryName c) name) shapes.

(** The value returned, paired with the detector after the call. *)
Definition addFrame (self : t)
    (blendshapes : option (list (option Classifications)))
  : exn (bool * t) :=
  match phase self with
  | detected => Return (true, self)
  | _ =>
    match blendshapes with
    | None | Some [] => Return (false, self)
    | Some (first :: _) =>
      shapes <- match first with
                | Some c => Return (categories c)
                | None => TypeError
                end;
      match findCategory "eyeBlinkLeft" shapes,
            findCategory "eyeBlinkRight" shapes with
      | Some leftBlink, Some rightBlink =>
        let leftScore := score leftBlink in
        let rightScore := score rightBlink in
        match phase self with
        | waiting =>
          if Qgtb leftScore BLINK_THRESHOLD && Qgtb rightScore BLINK_THRESHOLD
          then Return (false, {| phase := eyes_closed |})
          else Return (false, self)
        | eyes_closed =>
          if Qltb leftScore OPEN_THRESHOLD && Qltb rightScore OPEN_THRESHOLD
          then Return (true, {| phase := detected |})
          else Return (false, self)
        | detected => Return (false, self)
        end
      | _, _ => Return (false, self)
      end
    end
  end.

End BlinkDetector.

(** ** lib/motionValidator.ts *)

Inductive ChallengeDirection : Type := turnLeft | turnRight | lookUp | lookDown.

Record MotionResult : Type := {
  isValid : bool;
  progress : Q;
  rejectionReason : option string;
}.

Definition MIN_DISPLACEMENT_HORIZONTAL : Q := 0.30.
Definition MIN_DISPLACEMENT_VERTICAL : Q := 0.18.

Definition getMinDisplacement (direction : ChallengeDirection) : Q :=
  match direction with
  | lookUp | lookDown => MIN_DISPLACEMENT_VERTICAL
  | _ => MIN_DISPLACEMENT_HORIZONTAL
  end.

Definition MAX_FRAME_DELTA : Q := 0.12.
Definition WINDOW_SIZE : nat := 18.
Definition MIN_DIRECTIONAL_RATIO : Q := 0.55.

Inductive Axis : Type := axis_yaw | axis_pitch.

Module MotionValidator.

Record t : Type := {
  poseHistory : list HeadPose;
  _isStarted : bool;
}.

Definition new : t := {| poseHistory := []; _isStarted := false |}.

Definition reset (self : t) : t := {| poseHistory := []; _isStarted := false |}.

Definition isStarted (self : t) : bool := _isStarted self.

Definition getAxis (direction : ChallengeDirection) : Axis :=
  match direction with
  | turnLeft | turnRight => axis_yaw
  | _ => axis_pitch
  end.

Definition getExpectedSign (direction : ChallengeDirection) : Q :=
  match direction with
  | turnLeft => 1
  | turnRight => -1
  | lookUp => -1
  | lookDown => 1
  end.

Definition getAxisValue (pose : HeadPose) (axis : Axis) : Q :=
  match axis with axis_yaw => yaw pose | axis_pitch => pitch pose end.

(** First loop of [validate], with [prev = history[i-1]] and
    [rest = history[i..]]: [true] when the loop returns the rejection. *)
Fixpoint jumpLoop (axis : Axis) (prev : HeadPose) (rest : list HeadPose)
  : bool :=
  match rest with
  | [] => false
  | cur :: rest' =>
      let delta := Qabs (getAxisValue cur axis - getAxisValue prev axis) in
      if Qgtb delta MAX_FRAME_DELTA then true
      else jumpLoop axis cur rest'
  end.

Definition hasJump (axis : Axis) (history : list HeadPose) : bool :=
  match history with
  | [] => false
  | first :: rest => jumpLoop axis first rest
  end.

(** Second loop of [validate]: the final [correctDirectionCount]. *)
Fixpoint countLoop (axis : Axis) (expectedSign : Q) (prev : HeadPose)
    (rest : list HeadPose) (correctDirectionCount : nat) : nat :=
  match rest with
  | [] => correctDirectionCount
  | cur :: rest' =>
      let delta := getAxisValue cur axis - getAxisValue prev axis in
      countLoop axis expectedSign cur rest'
        (if Qgtb (delta * expectedSign) 0
         then S correctDirectionCount else correctDirectionCount)
  end.

Definition countCorrect (axis : Axis) (expectedSign : Q)
    (history : list HeadPose) : nat :=
  match history with
  | [] => 0%nat
  | first :: rest => countLoop axis expectedSign first rest 0
  end.

Definition validate (self : t) (direction : ChallengeDirection)
  : exn MotionResult :=
  let history := poseHistory self in
  let axis := getAxis direction in
  let expectedSign := getExpectedSign direction in
  if hasJump axis history then
    Return {| isValid := false; progress := 0;
              rejectionReason :=
                Some "Sudden movement detected — please move slowly" |}
  else
    h0 <- at_index history 0;
    hlast <- at_index history (length history - 1);
    let first := getAxisValue h0 axis in
    let last := getAxisValue hlast axis in
    let totalDisplacement := (last - first) * expectedSign in
    let correctDirectionCount := countCorrect axis expectedSign history in
    let directionalRatio :=
      inject_Z (Z.of_nat correctDirectionCount)
      / inject_Z (Z.of_nat (length history) - 1) in
    let minDisp := getMinDisplacement direction in
    let progress := Qmin 1 (Qmax 0 (totalDisplacement / minDisp)) in
    let isValid := Qgeb totalDisplacement minDisp
                   && Qgeb directionalRatio MIN_DIRECTIONAL_RATIO in
    Return {| isValid := isValid; progress := progress;
              rejectionReason := None |}.

(** [this.poseHistory.slice(-WINDOW_SIZE)] *)
Definition slice_last (n : nat) (l : list HeadPose) : list HeadPose :=
  drop (length l - n) l.

(** [poseHistory] after the [push] and the truncation of [addFrame]. *)
Definition window (self : t) (pose : HeadPose) : list HeadPose :=
  let pushed := poseHistory self ++ [pose] in
  if (WINDOW_SIZE <? length pushed)%nat
  then slice_last WINDOW_SIZE pushed else pushed.

Definition addFrame (self : t) (pose : HeadPose)
    (direction : ChallengeDirection) : exn (MotionResult * t) :=
  let started := if negb (_isStarted self) then true else _isStarted self in
  let history := window self pose in
  let self' := {| poseHistory := history; _isStarted := started |} in
  if (length history <? 6)%nat then
    Return ({| isValid := false; progress := 0; rejectionReason := None |},
            self')
  else
    r <- validate self' direction;
    Return (r, self').

End MotionValidator.

(** ** hooks/useFaceLiveness.ts *)

Inductive ChallengeStep : Type :=
| center
| head (direction : ChallengeDirection)
| blink.

Inductive OverallStatus : Type := loading | ready | running | success | failed.

Inductive StepStatus : Type :=
| step_pending | step_active | step_success | step_failed.

Record LivenessState : Type := {
  overallStatus : OverallStatus;
  currentStepIndex : nat;
  stepStatus : StepStatus;
  feedbackMessage : string;
  motionProgress : Q;
  isFaceDetected : bool;
  timeRemaining : Q;
}.

Definition STEP_TIMEOUT_MS : Z := 5000.
Definition CENTER_YAW_THRESHOLD : Q := 0.25.
Definition CENTER_PITCH_THRESHOLD : Q := 0.20.
Definition CENTER_HOLD_FRAMES : nat := 15.

(** [getInstructionMessage] on a defined step. *)
Definition instructionMessage (step : ChallengeStep) : string :=
  match step with
  | center => "Look straight at the camera"
  | blink => "Please blink naturally 👁️"
  | head turnLeft => "← Turn your head LEFT slowly"
  | head turnRight => "→ Turn your head RIGHT slowly"
  | head lookUp => "↑ Look UP slowly"
  | head lookDown => "↓ Look DOWN slowly"
  end.

(** [step] is [None] for [undefined]; [step.type] then throws. *)
Definition getInstructionMessage (step : option ChallengeStep) : exn string :=
  match step with
  | None => TypeError
  | Some step => Return (instructionMessage step)
  end.

(** The mutable cells of one [useFaceLiveness] instance: the React state
    and the refs.  [timers] holds the pending [setTimeout] callbacks of
    [advanceStep], each closed over its [nextIndex]. *)
Record Hook : Type := {
  state : LivenessState;
  motionValidator : MotionValidator.t;
  blinkDetector : BlinkDetector.t;
  centerFrames : nat;
  stepStartTime : Z;
  currentStepRef : nat;
  isRunningRef : bool;
  hasAdvanced : bool;
  timers : list nat;
}.

(** [setState(prev => f prev)] *)
Definition setState (f : LivenessState -> LivenessState) (h : Hook) : Hook :=
  {| state := f (state h);
     motionValidator := motionValidator h;
     blinkDetector := blinkDetector h;
     centerFrames := centerFrames h;
     stepStartTime := stepStartTime h;
     currentStepRef := currentStepRef h;
     isRunningRef := isRunningRef h;
     hasAdvanced := hasAdvanced h;
     timers := timers h |}.

(** [prev => prev.stepStatus === 'active' ? f prev : prev] *)
Definition whenActive (f : LivenessState -> LivenessState)
  : LivenessState -> LivenessState :=
  fun prev => match stepStatus prev with step_active => f prev | _ => prev end.

Definition initialState : LivenessState :=
  {| overallStatus := loading;
     currentStepIndex := 0;
     stepStatus := step_pending;
     feedbackMessage := "Loading face detection models…";
     motionProgress := 0;
     isFaceDetected := false;
     timeRemaining := inject_Z STEP_TIMEOUT_MS / 1000 |}.

Definition initialHook : Hook :=
  {| state := initialState;
     motionValidator := MotionValidator.new;
     blinkDetector := BlinkDetector.new;
     centerFrames := 0;
     stepStartTime := 0;
     currentStepRef := 0;
     isRunningRef := false;
     hasAdvanced := false;
     timers := [] |}.

(** What one scheduling tick sees of the outside world. *)
Inductive Frame : Type :=
| NotReady
  (** video or landmarker missing, [readyState < 2], or [detectForVideo]
      threw: the tick is skipped *)
| Detection (faceLandmarks : list Landmarks)
            (faceBlendshapes : option (list Classifications)).

Section UseFaceLiveness.

Variable challengeSequence : list ChallengeStep.

Definition advanceStep (h : Hook) : Hook :=
  if hasAdvanced h then h
  else
    let nextIndex := (currentStepRef h + 1)%nat in
    if (length challengeSequence <=? nextIndex)%nat then
      {| state :=
           {| overallStatus := success;
              currentStepIndex := currentStepIndex (state h);
              stepStatus := step_success;
              feedbackMessage := "Liveness Confirmed ✅";
              motionProgress := 1;
              isFaceDetected := isFaceDetected (state h);
              timeRemaining := timeRemaining (state h) |};
         motionValidator := motionValidator h;
         blinkDetector := blinkDetector h;
         centerFrames := centerFrames h;
         stepStartTime := stepStartTime h;
         currentStepRef := currentStepRef h;
         isRunningRef := false;
         hasAdvanced := true;
         timers := timers h |}
    else
      {| state :=
           {| overallStatus := overallStatus (state h);
              currentStepIndex := currentStepIndex (state h);
              stepStatus := step_success;
              feedbackMessage := "✓ Step complete!";
              motionProgress := 1;
              isFaceDetected := isFaceDetected (state h);
              timeRemaining := timeRemaining (state h) |};
         motionValidator := motionValidator h;
         blinkDetector := blinkDetector h;
         centerFrames := centerFrames h;
         stepStartTime := stepStartTime h;
         currentStepRef := currentStepRef h;
         isRunningRef := isRunningRef h;
         hasAdvanced := true;
         timers := timers h ++ [nextIndex] |}.

(** The callback given to [setTimeout(..., 800)] by [advanceStep], run at
    time [now] for the captured [nextIndex]. *)
Definition advanceTimeout (nextIndex : nat) (now : Z) (h : Hook) : exn Hook :=
  msg <- getInstructionMessage (challengeSequence !! nextIndex);
  Return
    {| state :=
         {| overallStatus := overallStatus (state h);
            currentStepIndex := nextIndex;
            stepStatus := step_active;
            feedbackMessage := msg;
            motionProgress := 0;
            isFaceDetected := isFaceDetected (state h);
            timeRemaining := inject_Z STEP_TIMEOUT_MS / 1000 |};
       motionValidator := MotionValidator.reset (motionValidator h);
       blinkDetector := BlinkDetector.reset (blinkDetector h);
       centerFrames := 0;
       stepStartTime := now;
       currentStepRef := nextIndex;
       isRunningRef := isRunningRef h;
       hasAdvanced := false;
       timers := timers h |}.

Definition failStep (reason : string) (h : Hook) : Hook :=
  {| state :=
       {| overallStatus := failed;
          currentStepIndex := currentStepIndex (state h);
          stepStatus := step_failed;
          feedbackMessage := reason;
          motionProgress := 0;
          isFaceDetected := isFaceDetected (state h);
          timeRemaining := timeRemaining (state h) |};
     motionValidator := motionValidator h;
     blinkDetector := blinkDetector h;
     centerFrames := centerFrames h;
     stepStartTime := stepStartTime h;
     currentStepRef := currentStepRef h;
     isRunningRef := false;
     hasAdvanced := hasAdvanced h;
     timers := timers h |}.

Definition startChallenge (now : Z) (h : Hook) : exn Hook :=
  msg <- getInstructionMessage (challengeSequence !! 0%nat);
  Return
    {| state :=
         {| overallStatus := running;
            currentStepIndex := 0;
            stepStatus := step_active;
            feedbackMessage := msg;
            motionProgress := 0;
            isFaceDetected := false;
            timeRemaining := inject_Z STEP_TIMEOUT_MS / 1000 |};
       motionValidator := MotionValidator.reset (motionValidator h);
       blinkDetector := BlinkDetector.reset (blinkDetector h);
       centerFrames := 0;
       stepStartTime := now;
       currentStepRef := 0;
       isRunningRef := true;
       hasAdvanced := false;
       timers := timers h |}.

Definition reset (h : Hook) : Hook :=
  {| state :=
       {| overallStatus := ready;
          currentStepIndex := 0;
          stepStatus := step_pending;
          feedbackMessage := "Press Start to begin verification";
          motionProgress := 0;
          isFaceDetected := false;
          timeRemaining := inject_Z STEP_TIMEOUT_MS / 1000 |};
     motionValidator := MotionValidator.reset (motionValidator h);
     blinkDetector := BlinkDetector.reset (blinkDetector h);
     centerFrames := 0;
     stepStartTime := stepStartTime h;
     currentStepRef := 0;
     isRunningRef := false;
     hasAdvanced := false;
     timers := timers h |}.

Definition set_centerFrames (n : nat) (h : Hook) : Hook :=
  {| state := state h;
     motionValidator := motionValidator h;
     blinkDetector := blinkDetector h;
     centerFrames := n;
     stepStartTime := stepStartTime h;
     currentStepRef := currentStepRef h;
     isRunningRef := isRunningRef h;
     hasAdvanced := hasAdvanced h;
     timers := timers h |}.

Definition set_motionValidator (mv : MotionValidator.t) (h : Hook) : Hook :=
  {| state := state h;
     motionValidator := mv;
     blinkDetector := blinkDetector h;
     centerFrames := centerFrames h;
     stepStartTime := stepStartTime h;
     currentStepRef := currentStepRef h;
     isRunningRef := isRunningRef h;
     hasAdvanced := hasAdvanced h;
     timers := timers h |}.

Definition set_blinkDetector (bd : BlinkDetector.t) (h : Hook) : Hook :=
  {| state := state h;
     motionValidator := motionValidator h;
     blinkDetector := bd;
     centerFrames := centerFrames h;
     stepStartTime := stepStartTime h;
     currentStepRef := currentStepRef h;
     isRunningRef := isRunningRef h;
     hasAdvanced := hasAdvanced h;
     timers := timers h |}.

(** [{ ...prev, field: v }] for the fields the loop writes. *)
Definition with_isFaceDetected (b : bool) (prev : LivenessState) :=
  {| overallStatus := overallStatus prev;
     currentStepIndex := currentStepIndex prev;
     stepStatus := stepStatus prev;
     feedbackMessage := feedbackMessage prev;
     motionProgress := motionProgress prev;
     isFaceDetected := b;
     timeRemaining := timeRemaining prev |}.

Definition with_feedbackMessage (msg : string) (prev : LivenessState) :=
  {| overallStatus := overallStatus prev;
     currentStepIndex := currentStepIndex prev;
     stepStatus := stepStatus prev;
     feedbackMessage := msg;
     motionProgress := motionProgress prev;
     isFaceDetected := isFaceDetected prev;
     timeRemaining := timeRemaining prev |}.

Definition with_motionProgress (p : Q) (prev : LivenessState) :=
  {| overallStatus := overallStatus prev;
     currentStepIndex := currentStepIndex prev;
     stepStatus := stepStatus prev;
     feedbackMessage := feedbackMessage prev;
     motionProgress := p;
     isFaceDetected := isFaceDetected prev;
     timeRemaining := timeRemaining prev |}.

Definition with_timeRemaining (t : Q) (prev : LivenessState) :=
  {| overallStatus := overallStatus prev;
     currentStepIndex := currentStepIndex prev;
     stepStatus := stepStatus prev;
     feedbackMessage := feedbackMessage prev;
     motionProgress := motionProgress prev;
     isFaceDetected := isFaceDetected prev;
     timeRemaining := t |}.

(** The [step.type === 'center'] branch of [detectLoop]. *)
Definition centerStep (pose : HeadPose) (h : Hook) : Hook :=
  let isCentered := Qltb (Qabs (yaw pose)) CENTER_YAW_THRESHOLD
                    && Qltb (Qabs (pitch pose)) CENTER_PITCH_THRESHOLD in
  if isCentered then
    let h := set_centerFrames (S (centerFrames h)) h in
    let progress :=
      Qmin 1 (inject_Z (Z.of_nat (centerFrames h))
              / inject_Z (Z.of_nat CENTER_HOLD_FRAMES)) in
    let h := setState (whenActive (fun prev =>
               with_feedbackMessage
                 (if Qltb progress 1 then "Hold still — centering…"
                  else "✓ Centered!")
                 (with_motionProgress progress prev))) h in
    if (CENTER_HOLD_FRAMES <=? centerFrames h)%nat then advanceStep h else h
  else
    let h := set_centerFrames 0 h in
    setState (whenActive (fun prev =>
      with_feedbackMessage "Look straight at the camera"
        (with_motionProgress 0 prev))) h.

(** The [step.type === 'head'] branch of [detectLoop]. *)
Definition headStep (step : ChallengeStep) (direction : ChallengeDirection)
    (pose : HeadPose) (h : Hook) : exn Hook :=
  res <- MotionValidator.addFrame (motionValidator h) pose direction;
  let motionResult := fst res in
  let h := set_motionValidator (snd res) h in
  match rejectionReason motionResult with
  | Some reason => Return (failStep ("❌ " ++ reason) h)
  | None =>
      let h := setState (whenActive (fun prev =>
                 with_feedbackMessage
                   (if isValid motionResult then "✓ Movement detected!"
                    else instructionMessage step)
                   (with_motionProgress (progress motionResult) prev))) h in
      Return (if isValid motionResult then advanceStep h else h)
  end.

(** The [step.type === 'blink'] branch of [detectLoop]. *)
Definition blinkStep
    (blendshapes : option (list (option Classifications))) (h : Hook)
  : exn Hook :=
  match blendshapes with
  | None => Return h
  | Some _ =>
      res <- BlinkDetector.addFrame (blinkDetector h) blendshapes;
      let blinked := fst res in
      let h := set_blinkDetector (snd res) h in
      if blinked then
        Return (advanceStep (setState (whenActive (fun prev =>
                  with_feedbackMessage "✓ Blink detected!"
                    (with_motionProgress 1 prev))) h))
      else
        Return (setState (whenActive (fun prev =>
                  with_feedbackMessage "Please blink naturally 👁️" prev)) h)
  end.

(** One run of [detectLoop], up to its [requestAnimationFrame]; [now] is
    the value of [Date.now()].  [TypeError] is an uncaught exception: the
    next frame is not requested and the loop ends. *)
Definition detectLoop (now : Z) (frame : Frame) (h : Hook) : exn Hook :=
  match frame with
  | NotReady => Return h
  | Detection faceLandmarks faceBlendshapes =>
    sel <- selectLargestFace faceLandmarks faceBlendshapes;
    match sel with
    | None =>
        Return (setState (fun prev =>
          let prev' := with_isFaceDetected false prev in
          if isRunningRef h then
            match stepStatus prev with
            | step_active =>
                with_feedbackMessage
                  "No face detected — look at the camera" prev'
            | _ => prev'
            end
          else prev') h)
    | Some selected =>
        let h := setState (with_isFaceDetected true) h in
        if isRunningRef h then
          let step := challengeSequence !! currentStepRef h in
          let elapsed := (now - stepStartTime h)%Z in
          let timeRemaining :=
            Qmax 0 (inject_Z (STEP_TIMEOUT_MS - elapsed) / 1000) in
          if (STEP_TIMEOUT_MS <? elapsed)%Z && negb (hasAdvanced h) then
            Return (failStep "⏰ Time expired — please try again" h)
          else
            let h := setState (whenActive (with_timeRemaining timeRemaining)) h in
            pose <- extractHeadPose (landmarks selected);
            match step with
            | None => TypeError
            | Some center => Return (centerStep pose h)
            | Some (head direction) =>
                headStep (head direction) direction pose h
            | Some blink => blinkStep (blendshapes selected) h
            end
        else Return h
    end
  end.

(** Events that drive one hook instance. *)
Inductive Event : Type :=
| EvStart (now : Z)
| EvReset
| EvFrame (now : Z) (frame : Frame)
| EvTimer (now : Z).

Definition step (ev : Event) (h : Hook) : exn Hook :=
  match ev with
  | EvStart now => startChallenge now h
  | EvReset => Return (reset h)
  | EvFrame now frame => detectLoop now frame h
  | EvTimer now =>
      match timers h with
      | [] => Return h
      | nextIndex :: rest =>
          advanceTimeout nextIndex now
            {| state := state h;
               motionValidator := motionValidator h;
               blinkDetector := blinkDetector h;
               centerFrames := centerFrames h;
               stepStartTime := stepStartTime h;
               currentStepRef := currentStepRef h;
               isRunningRef := isRunningRef h;
               hasAdvanced := hasAdvanced h;
               timers := rest |}
      end
  end.

Fixpoint run (evs : list Event) (h : Hook) : exn Hook :=
  match evs with
  | [] => Return h
  | ev :: evs' => h' <- step ev h; run evs' h'
  end.

End UseFaceLiveness.

(** ** components/LivenessCam.tsx: the challenge sequence *)

(** [generateChallengeSequence], given the outcome [shuffled] of
    [[...directions].sort(() => Math.random() - 0.5)]: the first three
    directions of the shuffle, each as a head step followed by a blink
    step, after the opening center step. *)
Definition generateChallengeSequence (shuffled : list ChallengeDirection)
  : list ChallengeStep :=
  let picked := take 3 shuffled in
  fold_left (fun steps dir => (steps ++ [head dir]) ++ [blink]) picked [center].

Definition directions : list ChallengeDirection :=
  [turnLeft; turnRight; lookUp; lookDown].

(** ** lib/mediapipe.ts: the shared landmarker *)

Module Mediapipe.

(** The promise made by one run of the initialising closure.  The closure
    suspends at its awaits; when it resumes for the last time it either
    assigns the landmarker it created to [faceLandmarker] and fulfils, or
    rejects because one of the awaited calls failed. *)
Inductive PromiseState : Type := Pending | Fulfilled | Rejected.

(** The module variables, with every promise created so far (a promise is
    named by its position, and so is the landmarker it creates) and the
    landmarkers on which [close()] was called. *)
Record t : Type := {
  faceLandmarker : option nat;
  initPromise : option nat;
  promises : list PromiseState;
  closed : list nat;
}.

Definition initial : t :=
  {| faceLandmarker := None; initPromise := None;
     promises := []; closed := [] |}.

(** What the promise returned by [getOrCreateFaceLandmarker] resolves
    with: the landmarker at hand, or whatever the init promise settles
    to. *)
Inductive Acquired : Type :=
| Now (landmarker : nat)
| Follows (promise : nat).

Definition getOrCreateFaceLandmarker (m : t) : Acquired * t :=
  match faceLandmarker m with
  | Some landmarker => (Now landmarker, m)
  | None =>
      match initPromise m with
      | Some promise => (Follows promise, m)
      | None =>
          let promise := length (promises m) in
          (Follows promise,
           {| faceLandmarker := faceLandmarker m;
              initPromise := Some promise;
              promises := promises m ++ [Pending];
              closed := closed m |})
      end
  end.

(** The closure of promise [promise] resumes after
    [FaceLandmarker.createFromOptions] succeeded. *)
Definition fulfil (promise : nat) (m : t) : t :=
  match promises m !! promise with
  | Some Pending =>
      {| faceLandmarker := Some promise;
         initPromise := initPromise m;
         promises := <[promise := Fulfilled]> (promises m);
         closed := closed m |}
  | _ => m
  end.

(** One of the awaited calls of promise [promise] failed. *)
Definition reject (promise : nat) (m : t) : t :=
  match promises m !! promise with
  | Some Pending =>
      {| faceLandmarker := faceLandmarker m;
         initPromise := initPromise m;
         promises := <[promise := Rejected]> (promises m);
         closed := closed m |}
  | _ => m
  end.

Definition destroyFaceLandmarker (m : t) : t :=
  match faceLandmarker m with
  | Some landmarker =>
      {| faceLandmarker := None;
         initPromise := None;
         promises := promises m;
         closed := landmarker :: closed m |}
  | None => m
  end.

Inductive Event : Type :=
| Acquire
| Fulfil (promise : nat)
| Reject (promise : nat)
| Destroy.

Definition step (ev : Event) (m : t) : t :=
  match ev with
  | Acquire => snd (getOrCreateFaceLandmarker m)
  | Fulfil promise => fulfil promise m
  | Reject promise => reject promise m
  | Destroy => destroyFaceLandmarker m
  end.

Definition run (evs : list Event) (m : t) : t :=
  fold_left (fun m ev => step ev m) evs m.

End Mediapipe.

(** * Verification *)

(** ** Comparisons on numbers *)

Lemma Qgtb_true (a b : Q) : Qgtb a b = true <-> b < a.
Proof.
  unfold Qgtb. rewrite negb_true_iff, <- not_true_iff_false, Qle_bool_iff.
  split; [apply Qnot_le_lt | apply Qlt_not_le].
Qed.

Lemma Qgtb_false (a b : Q) : Qgtb a b = false <-> a <= b.
Proof.
  unfold Qgtb. rewrite negb_false_iff. apply Qle_bool_iff.
Qed.

Lemma Qltb_true (a b : Q) : Qltb a b = true <-> a < b.
Proof. apply Qgtb_true. Qed.

Lemma Qltb_false (a b : Q) : Qltb a b = false <-> b <= a.
Proof. apply Qgtb_false. Qed.

Lemma Qgeb_true (a b : Q) : Qgeb a b = true <-> b <= a.
Proof. apply Qle_bool_iff. Qed.

Lemma Qclamp_bounds (v : Q) : 0 <= Qmin 1 (Qmax 0 v) <= 1.
Proof.
  split.
  - apply Q.min_glb; [lra | apply Q.le_max_l].
  - apply Q.le_min_l.
Qed.


(** ** Exceptions *)

Lemma at_index_Some {A : Type} (a : list A) (i : nat) (v : A) :
  a !! i = Some v -> at_index a i = Return v.
Proof. unfold at_index. intros ->. reflexivity. Qed.

(** ** Motion validator *)

(** Vocabulary of the specification, independent of the loops of
    [validate]. *)
Module MotionSpec.

(** The axis a direction selects: yaw for left/right, pitch for
    up/down. *)
Definition selectedAxis (direction : ChallengeDirection) (pose : HeadPose)
  : Q :=
  match direction with
  | turnLeft | turnRight => yaw pose
  | lookUp | lookDown => pitch pose
  end.

(** The sign of change a direction expects on its axis. *)
Definition expectedSign (direction : ChallengeDirection) : Q :=
  match direction with
  | turnLeft => 1
  | turnRight => -1
  | lookUp => -1
  | lookDown => 1
  end.

(** Minimum displacement: 0.30 for yaw turns, 0.18 for pitch turns. *)
Definition minRequired (direction : ChallengeDirection) : Q :=
  match direction with
  | turnLeft | turnRight => 0.30
  | lookUp | lookDown => 0.18
  end.

(** Consecutive differences [v[i] - v[i-1]], in order. *)
Fixpoint deltas (vals : list Q) : list Q :=
  match vals with
  | a :: (b :: _) as rest => (b - a) :: deltas rest
  | _ => []
  end.

Definition axisDeltas (direction : ChallengeDirection)
    (w : list HeadPose) : list Q :=
  deltas (map (selectedAxis direction) w).

(** Last value minus first value, times the expected sign. *)
Definition totalDisplacement (direction : ChallengeDirection)
    (w : list HeadPose) : Q :=
  let vals := map (selectedAxis direction) w in
  (List.last vals 0 - List.hd 0 vals) * expectedSign direction.

(** Number of deltas whose sign is the expected one. *)
Fixpoint matching (sign : Q) (ds : list Q) : nat :=
  match ds with
  | [] => 0
  | d :: ds' =>
      ((if Qgtb (d * sign) 0 then 1 else 0) + matching sign ds')%nat
  end.

(** Fraction of the consecutive deltas whose sign is the expected one. *)
Definition directionalRatio (direction : ChallengeDirection)
    (w : list HeadPose) : Q :=
  let ds := axisDeltas direction w in
  inject_Z (Z.of_nat (matching (expectedSign direction) ds))
  / inject_Z (Z.of_nat (length ds)).

(** [clamp(v, 0, 1)] *)
Definition clamp01 (v : Q) : Q := Qmin 1 (Qmax 0 v).

Definition rejected : MotionResult :=
  {| isValid := false; progress := 0;
     rejectionReason :=
       Some "Sudden movement detected — please move slowly" |}.

Definition notYet : MotionResult :=
  {| isValid := false; progress := 0; rejectionReason := None |}.

End MotionSpec.

Import MotionSpec.

Lemma getAxisValue_selectedAxis direction pose :
  MotionValidator.getAxisValue pose (MotionValidator.getAxis direction)
  = selectedAxis direction pose.
Proof. destruct direction; reflexivity. Qed.

Lemma getExpectedSign_expectedSign direction :
  MotionValidator.getExpectedSign direction = expectedSign direction.
Proof. destruct direction; reflexivity. Qed.

Lemma getMinDisplacement_minRequired direction :
  getMinDisplacement direction = minRequired direction.
Proof. destruct direction; reflexivity. Qed.

Lemma minRequired_pos direction : 0 < minRequired direction.
Proof. destruct direction; reflexivity. Qed.

Lemma length_deltas (vals : list Q) :
  length (deltas vals) = (length vals - 1)%nat.
Proof.
  induction vals as [|a [|b rest] IH]; simpl in *; try reflexivity.
  rewrite IH. lia.
Qed.

Lemma length_axisDeltas direction (w : list HeadPose) :
  length (axisDeltas direction w) = (length w - 1)%nat.
Proof. unfold axisDeltas. rewrite length_deltas, length_map. reflexivity. Qed.

(** The first loop returns the rejection exactly when some consecutive
    delta on the selected axis exceeds [MAX_FRAME_DELTA]. *)
Lemma jumpLoop_Exists direction prev rest :
  MotionValidator.jumpLoop (MotionValidator.getAxis direction) prev rest = true
  <-> Exists (fun d => MAX_FRAME_DELTA < Qabs d)
             (axisDeltas direction (prev :: rest)).
Proof.
  revert prev. induction rest as [|cur rest IH]; intros prev.
  - simpl. split; [discriminate | intros H; inversion H].
  - cbn [MotionValidator.jumpLoop].
    rewrite !getAxisValue_selectedAxis.
    unfold axisDeltas in *. cbn [map deltas].
    rewrite Exists_cons.
    destruct (Qgtb _ _) eqn:E.
    + apply Qgtb_true in E. tauto.
    + apply Qgtb_false in E. rewrite IH. cbn [map].
      split; [tauto | intros [H|H]; [lra | exact H]].
Qed.

Lemma hasJump_Exists direction w :
  MotionValidator.hasJump (MotionValidator.getAxis direction) w = true
  <-> Exists (fun d => MAX_FRAME_DELTA < Qabs d) (axisDeltas direction w).
Proof.
  destruct w as [|prev rest].
  - simpl. split; [discriminate | intros H; inversion H].
  - apply jumpLoop_Exists.
Qed.

Lemma hasJump_Forall direction w :
  MotionValidator.hasJump (MotionValidator.getAxis direction) w = false
  <-> Forall (fun d => Qabs d <= MAX_FRAME_DELTA) (axisDeltas direction w).
Proof.
  rewrite <- not_true_iff_false, hasJump_Exists, <- Forall_Exists_neg.
  apply Forall_iff. intros d. split; [apply Qnot_lt_le | apply Qle_not_lt].
Qed.

Lemma countLoop_matching direction prev rest acc :
  MotionValidator.countLoop (MotionValidator.getAxis direction)
    (MotionValidator.getExpectedSign direction) prev rest acc
  = (acc + matching (expectedSign direction)
             (axisDeltas direction (prev :: rest)))%nat.
Proof.
  revert prev acc. induction rest as [|cur rest IH]; intros prev acc.
  - simpl. lia.
  - cbn [MotionValidator.countLoop]. rewrite IH.
    rewrite !getAxisValue_selectedAxis, getExpectedSign_expectedSign.
    unfold axisDeltas. cbn [map deltas matching].
    destruct (Qgtb _ _); lia.
Qed.

Lemma countCorrect_matching direction w :
  MotionValidator.countCorrect (MotionValidator.getAxis direction)
    (MotionValidator.getExpectedSign direction) w
  = matching (expectedSign direction) (axisDeltas direction w).
Proof.
  destruct w as [|prev rest]; [reflexivity|].
  unfold MotionValidator.countCorrect. rewrite countLoop_matching. reflexivity.
Qed.

Lemma last_map_lookup {A : Type} (f : A -> Q) (w : list A) (a : A) :
  w !! (length w - 1)%nat = Some a -> List.last (map f w) 0 = f a.
Proof.
  induction w as [|b [|c rest] IH]; simpl.
  - discriminate.
  - intros [= ->]. reflexivity.
  - intros H. apply IH. simpl. rewrite Nat.sub_0_r. exact H.
Qed.

(** What [validate] returns on a non-empty history without a jump. *)
Definition scored (direction : ChallengeDirection) (w : list HeadPose)
  : MotionResult :=
  {| isValid :=
       Qgeb (totalDisplacement direction w) (minRequired direction)
       && Qgeb (directionalRatio direction w) 0.55;
     progress :=
       clamp01 (totalDisplacement direction w / minRequired direction);
     rejectionReason := None |}.

Lemma validate_jump self direction :
  MotionValidator.hasJump (MotionValidator.getAxis direction)
    (MotionValidator.poseHistory self) = true ->
  MotionValidator.validate self direction = Return rejected.
Proof. unfold MotionValidator.validate. intros ->. reflexivity. Qed.

Lemma validate_scored self direction :
  MotionValidator.poseHistory self <> [] ->
  MotionValidator.hasJump (MotionValidator.getAxis direction)
    (MotionValidator.poseHistory self) = false ->
  MotionValidator.validate self direction
  = Return (scored direction (MotionValidator.poseHistory self)).
Proof.
  intros Hne Hjump. unfold MotionValidator.validate. rewrite Hjump.
  destruct self as [w started]. cbn [MotionValidator.poseHistory] in *.
  destruct w as [|h0 rest]; [contradiction|].
  destruct (lookup_lt_is_Some_2 (h0 :: rest) (length (h0 :: rest) - 1))
    as [hlast Hlast]; [simpl; lia|].
  rewrite (at_index_Some _ 0 h0), (at_index_Some _ _ hlast) by (exact Hlast || reflexivity).
  cbn [bind]. f_equal. unfold scored, totalDisplacement, directionalRatio, clamp01.
  rewrite (last_map_lookup _ _ hlast Hlast).
  rewrite countCorrect_matching, !getAxisValue_selectedAxis,
    getExpectedSign_expectedSign, getMinDisplacement_minRequired,
    length_axisDeltas.
  replace (Z.of_nat (length (h0 :: rest)) - 1)%Z
    with (Z.of_nat (length (h0 :: rest) - 1)) by (simpl; lia).
  reflexivity.
Qed.

Lemma addFrame_short self pose direction :
  (length (MotionValidator.window self pose) < 6)%nat ->
  MotionValidator.addFrame self pose direction
  = Return (notYet, {| MotionValidator.poseHistory := MotionValidator.window self pose;
                       MotionValidator._isStarted := true |}).
Proof.
  intros Hlen. unfold MotionValidator.addFrame.
  apply Nat.ltb_lt in Hlen. rewrite Hlen.
  destruct (MotionValidator._isStarted self); reflexivity.
Qed.

Lemma addFrame_validate self pose direction :
  (6 <= length (MotionValidator.window self pose))%nat ->
  MotionValidator.addFrame self pose direction
  = (r <- MotionValidator.validate
            {| MotionValidator.poseHistory := MotionValidator.window self pose;
               MotionValidator._isStarted := true |} direction;
     Return (r, {| MotionValidator.poseHistory := MotionValidator.window self pose;
                   MotionValidator._isStarted := true |})).
Proof.
  intros Hlen. unfold MotionValidator.addFrame.
  apply Nat.ltb_ge in Hlen. rewrite Hlen.
  destruct (MotionValidator._isStarted self); reflexivity.
Qed.

Lemma addFrame_rejected self pose direction :
  (6 <= length (MotionValidator.window self pose))%nat ->
  Exists (fun d => MAX_FRAME_DELTA < Qabs d)
    (axisDeltas direction (MotionValidator.window self pose)) ->
  MotionValidator.addFrame self pose direction
  = Return (rejected, {| MotionValidator.poseHistory := MotionValidator.window self pose;
                         MotionValidator._isStarted := true |}).
Proof.
  intros Hlen Hjump. rewrite addFrame_validate by exact Hlen.
  rewrite validate_jump; [reflexivity|].
  apply hasJump_Exists. exact Hjump.
Qed.

Lemma addFrame_scored self pose direction :
  (6 <= length (MotionValidator.window self pose))%nat ->
  Forall (fun d => Qabs d <= MAX_FRAME_DELTA)
    (axisDeltas direction (MotionValidator.window self pose)) ->
  MotionValidator.addFrame self pose direction
  = Return (scored direction (MotionValidator.window self pose),
            {| MotionValidator.poseHistory := MotionValidator.window self pose;
               MotionValidator._isStarted := true |}).
Proof.
  intros Hlen Hsmooth. rewrite addFrame_validate by exact Hlen.
  rewrite validate_scored; [reflexivity| |].
  - cbn [MotionValidator.poseHistory]. intros E. rewrite E in Hlen.
    simpl in Hlen. lia.
  - apply hasJump_Forall. exact Hsmooth.
Qed.

(** [addFrame] always returns, with one of three results. *)
Lemma addFrame_cases self pose direction :
  let w := MotionValidator.window self pose in
  exists r,
    MotionValidator.addFrame self pose direction
    = Return (r, {| MotionValidator.poseHistory := w;
                    MotionValidator._isStarted := true |})
    /\ (r = notYet /\ (length w < 6)%nat
        \/ r = rejected /\ (6 <= length w)%nat
           /\ Exists (fun d => MAX_FRAME_DELTA < Qabs d) (axisDeltas direction w)
        \/ r = scored direction w /\ (6 <= length w)%nat
           /\ Forall (fun d => Qabs d <= MAX_FRAME_DELTA) (axisDeltas direction w)).
Proof.
  intros w. destruct (Nat.lt_ge_cases (length w) 6) as [Hlt|Hge].
  - exists notYet. split; [apply addFrame_short; exact Hlt | tauto].
  - destruct (MotionValidator.hasJump (MotionValidator.getAxis direction) w)
      eqn:E.
    + apply hasJump_Exists in E. exists rejected.
      split; [apply addFrame_rejected; assumption | tauto].
    + apply hasJump_Forall in E. exists (scored direction w).
      split; [apply addFrame_scored; assumption | tauto].
Qed.

(** Closed comparisons of rationals, by evaluation. *)
Ltac qcompute :=
  vm_compute;
  first [ reflexivity | discriminate | intros ?; discriminate ].

(** *** Fixtures *)

Definition poseAt (yw pt : Q) : HeadPose :=
  {| yaw := yw; pitch := pt; noseTip := {| px := 0.5; py := 0.5 |} |}.

Definition validatorWith (history : list HeadPose) : MotionValidator.t :=
  {| MotionValidator.poseHistory := history;
     MotionValidator._isStarted := true |}.

(** Five slow frames to the left; a sixth frame at yaw 0.35 then jumps by
    0.15 although displacement and direction are as required. *)
Definition slowLeft5 : list HeadPose :=
  [poseAt 0 0; poseAt 0.05 0; poseAt 0.10 0; poseAt 0.15 0; poseAt 0.20 0].

(** Yaw rising linearly from 0 to 0.35 over 18 frames (0.35/17 per frame),
    while the pitch jumps between -0.4 and 0.4 on every frame. *)
Definition rampYaw (k : nat) : HeadPose :=
  poseAt (inject_Z (Z.of_nat k) * (35 # 1700))
         (if Nat.even k then 0.4 else -0.4).

Definition ramp17 : list HeadPose := map rampYaw (seq 0 17).


(** *** Claims *)











(** *** Sequences of frames *)

(** Successive calls of [addFrame] on one validator: the results and the
    validator at the end. *)
Fixpoint feedPoses (self : MotionValidator.t) (poses : list HeadPose)
    (direction : ChallengeDirection)
  : exn (list MotionResult * MotionValidator.t) :=
  match poses with
  | [] => Return ([], self)
  | pose :: rest =>
      r <- MotionValidator.addFrame self pose direction;
      rs <- feedPoses (snd r) rest direction;
      Return (fst r :: fst rs, snd rs)
  end.

Lemma window_slice_last self pose :
  MotionValidator.window self pose
  = MotionValidator.slice_last WINDOW_SIZE
      (MotionValidator.poseHistory self ++ [pose]).
Proof.
  unfold MotionValidator.window, MotionValidator.slice_last.
  destruct (Nat.ltb_spec WINDOW_SIZE
              (length (MotionValidator.poseHistory self ++ [pose])))
    as [Hlt|Hge]; [reflexivity|].
  replace (_ - _)%nat with 0%nat by lia. reflexivity.
Qed.

Lemma slice_last_snoc n (l : list HeadPose) pose :
  MotionValidator.slice_last n (MotionValidator.slice_last n l ++ [pose])
  = MotionValidator.slice_last n (l ++ [pose]).
Proof.
  unfold MotionValidator.slice_last.
  rewrite <- (drop_app_le l [pose]) by lia.
  rewrite drop_drop. f_equal.
  rewrite length_drop, !length_app. cbn [length]. lia.
Qed.

Lemma slice_last_app n (l more : list HeadPose) :
  MotionValidator.slice_last n (MotionValidator.slice_last n l ++ more)
  = MotionValidator.slice_last n (l ++ more).
Proof.
  induction more as [|pose more IH] using rev_ind.
  - rewrite !app_nil_r. unfold MotionValidator.slice_last at 1.
    replace (_ - _)%nat with 0%nat; [reflexivity|].
    unfold MotionValidator.slice_last. rewrite length_drop. lia.
  - rewrite !app_assoc.
    rewrite <- (slice_last_snoc n (_ ++ more)), IH.
    apply slice_last_snoc.
Qed.

(** The window is the last 18 poses of everything fed so far. *)
Lemma feedPoses_history direction poses :
  forall self,
    (length (MotionValidator.poseHistory self) <= WINDOW_SIZE)%nat ->
    exists rs self',
      feedPoses self poses direction = Return (rs, self')
      /\ length rs = length poses
      /\ MotionValidator.poseHistory self'
         = MotionValidator.slice_last WINDOW_SIZE
             (MotionValidator.poseHistory self ++ poses).
Proof.
  induction poses as [|pose rest IH]; intros self Hlen.
  - exists [], self. split; [reflexivity|]. split; [reflexivity|].
    rewrite app_nil_r. unfold MotionValidator.slice_last.
    replace (_ - _)%nat with 0%nat by lia. reflexivity.
  - cbn [feedPoses].
    destruct (addFrame_cases self pose direction) as (r & Hr & _).
    rewrite Hr. cbn [bind snd fst].
    destruct (IH (validatorWith (MotionValidator.window self pose)))
      as (rs & self' & Hfeed & Hrs & Hhist).
    + cbn [validatorWith MotionValidator.poseHistory].
      rewrite window_slice_last. unfold MotionValidator.slice_last.
      rewrite length_drop. lia.
    + unfold validatorWith in Hfeed. rewrite Hfeed. cbn [bind fst snd].
      exists (r :: rs), self'. split; [reflexivity|].
      split; [cbn [length]; lia|].
      rewrite Hhist. cbn [validatorWith MotionValidator.poseHistory].
      rewrite window_slice_last, slice_last_app, <- app_assoc.
      reflexivity.
Qed.

(** Yaw rising linearly from 0 to 0.35 over 18 frames: judged valid from
    the sixteenth frame on, when the displacement has reached 0.30. *)
Example feed_linear_turn :
  exists rs self',
    feedPoses MotionValidator.new (map rampYaw (seq 0 18)) turnLeft
    = Return (rs, self')
    /\ map isValid rs = repeat false 15 ++ repeat true 3
    /\ map rejectionReason rs = repeat None 18.
Proof. do 2 eexists. split; [vm_compute; reflexivity|]. split; reflexivity. Qed.

(** Yaw jumping from 0 to 0.5 between the fifth and sixth frames: the
    sixth call returns the rejection. *)
Example feed_photo_swap :
  exists rs self',
    feedPoses MotionValidator.new
      (repeat (poseAt 0 0) 5 ++ [poseAt 0.5 0]) turnLeft
    = Return (rs, self')
    /\ rs = repeat notYet 5 ++ [rejected].
Proof. do 2 eexists. split; [vm_compute; reflexivity|]. reflexivity. Qed.

(** ** Blink detector *)

Definition BlinkInput : Type := option (list (option Classifications)).

(** The input carries the scores [l] and [r] under the names
    [eyeBlinkLeft] and [eyeBlinkRight] in its first entry. *)
Definition hasScores (input : BlinkInput) (l r : Q) : Prop :=
  exists c rest lb rb,
    input = Some (Some c :: rest)
    /\ BlinkDetector.findCategory "eyeBlinkLeft" (categories c) = Some lb
    /\ BlinkDetector.findCategory "eyeBlinkRight" (categories c) = Some rb
    /\ score lb = l /\ score rb = r.

(** No list, an empty list, or a first entry that lacks one of the two
    scores. *)
Definition missingScores (input : BlinkInput) : Prop :=
  input = None
  \/ input = Some []
  \/ exists c rest,
       input = Some (Some c :: rest)
       /\ (BlinkDetector.findCategory "eyeBlinkLeft" (categories c) = None
           \/ BlinkDetector.findCategory "eyeBlinkRight" (categories c) = None).

(** Blendshapes of one face with the two eye-blink scores. *)
Definition eyeScores (l r : Q) : BlinkInput :=
  Some [Some {| categories :=
                  [ {| categoryName := "browDownLeft"; score := 0 |};
                    {| categoryName := "eyeBlinkLeft"; score := l |};
                    {| categoryName := "eyeBlinkRight"; score := r |} ] |}].

(** Successive calls of [addFrame] on one detector: the values returned
    and the detector at the end. *)
Fixpoint feedBlinks (self : BlinkDetector.t) (inputs : list BlinkInput)
  : exn (list bool * BlinkDetector.t) :=
  match inputs with
  | [] => Return ([], self)
  | input :: rest =>
      r <- BlinkDetector.addFrame self input;
      rs <- feedBlinks (snd r) rest;
      Return (fst r :: fst rs, snd rs)
  end.

Definition inPhase (p : BlinkPhase) : BlinkDetector.t :=
  {| BlinkDetector.phase := p |}.

Lemma hasScores_eyeScores l r : hasScores (eyeScores l r) l r.
Proof. unfold hasScores, eyeScores. do 4 eexists. repeat split. Qed.

Lemma addFrame_with_scores p input l r :
  hasScores input l r ->
  BlinkDetector.addFrame (inPhase p) input
  = Return
      match p with
      | waiting =>
          if Qgtb l BLINK_THRESHOLD && Qgtb r BLINK_THRESHOLD
          then (false, inPhase eyes_closed) else (false, inPhase waiting)
      | eyes_closed =>
          if Qltb l OPEN_THRESHOLD && Qltb r OPEN_THRESHOLD
          then (true, inPhase detected) else (false, inPhase eyes_closed)
      | detected => (true, inPhase detected)
      end.
Proof.
  intros (c & rest & lb & rb & -> & Hl & Hr & <- & <-).
  unfold BlinkDetector.addFrame, inPhase. cbn [BlinkDetector.phase bind].
  rewrite Hl, Hr.
  destruct p; try reflexivity; destruct (_ && _); reflexivity.
Qed.

Lemma addFrame_detected input :
  BlinkDetector.addFrame (inPhase detected) input
  = Return (true, inPhase detected).
Proof. reflexivity. Qed.

(** Every way [addFrame] can return. *)
Lemma addFrame_inv self input b self' :
  BlinkDetector.addFrame self input = Return (b, self') ->
  (b = true /\ self' = self /\ BlinkDetector.phase self = detected)
  \/ (b = true /\ BlinkDetector.phase self = eyes_closed
      /\ BlinkDetector.phase self' = detected
      /\ exists l r, hasScores input l r /\ l < 0.2 /\ r < 0.2)
  \/ (b = false /\ BlinkDetector.phase self = waiting
      /\ BlinkDetector.phase self' = eyes_closed
      /\ exists l r, hasScores input l r /\ 0.4 < l /\ 0.4 < r)
  \/ (b = false /\ self' = self /\ BlinkDetector.phase self <> detected).
Proof.
  destruct self as [p]. unfold BlinkDetector.addFrame.
  cbn [BlinkDetector.phase].
  destruct p.
  3: { intros [= <- <-]. left. auto. }
  all: destruct input as [[|[c|] rest]|]; cbn [bind];
    try discriminate;
    try (intros [= <- <-]; right; right; right; repeat split; discriminate).
  all: destruct (BlinkDetector.findCategory "eyeBlinkLeft" _) as [lb|] eqn:El;
    [destruct (BlinkDetector.findCategory "eyeBlinkRight" _) as [rb|] eqn:Er|];
    try (intros [= <- <-]; right; right; right; repeat split; discriminate).
  all: destruct (_ && _) eqn:E;
    try (intros [= <- <-]; right; right; right; repeat split; discriminate).
  all: apply andb_true_iff in E as [E1 E2]; intros [= <- <-].
  - apply Qgtb_true in E1, E2. right; right; left. repeat split.
    exists (score lb), (score rb). split; [|split; assumption].
    exists c, rest, lb, rb. auto.
  - apply Qltb_true in E1, E2. right; left. repeat split.
    exists (score lb), (score rb). split; [|split; assumption].
    exists c, rest, lb, rb. auto.
Qed.




(** C9, as stated, fails in the Detected phase: a call without any
    blendshapes list returns true there, not false. *)
Lemma missing_scores_when_detected_returns_true :
  missingScores None
  /\ BlinkDetector.addFrame (inPhase detected) None
     = Return (true, inPhase detected)
  /\ BlinkDetector.addFrame (inPhase detected) None
     <> Return (false, inPhase detected).
Proof.
  split; [left; reflexivity|]. split; [reflexivity|discriminate].
Qed.

(** C9, amended. In every phase a call with missing or empty score input
    leaves the phase unchanged; it returns false in Waiting and EyesClosed
    and true in Detected. *)
Theorem missing_scores_cause_no_transition self input :
  missingScores input ->
  BlinkDetector.addFrame self input
  = Return (match BlinkDetector.phase self with
            | waiting | eyes_closed => false
            | detected => true
            end, self).
Proof.
  destruct self as [p]. unfold BlinkDetector.addFrame.
  cbn [BlinkDetector.phase].
  intros [->|[->|(c & rest & -> & Hmiss)]]; destruct p; try reflexivity;
    cbn [bind];
    destruct Hmiss as [-> | Hr]; try reflexivity;
    rewrite Hr; destruct (BlinkDetector.findCategory "eyeBlinkLeft" _);
    reflexivity.
Qed.

Lemma missing_scores_cause_no_transition_witness :
  BlinkDetector.addFrame (inPhase eyes_closed)
    (Some [Some {| categories :=
                     [ {| categoryName := "eyeBlinkLeft"; score := 0.1 |} ] |}])
  = Return (false, inPhase eyes_closed).
Proof.
  apply (missing_scores_cause_no_transition (inPhase eyes_closed)).
  right. right. eexists _, _. split; [reflexivity|]. right. reflexivity.
Defined.

(** ** Pose extractor *)

Definition landmarkAt (lx ly : Q) : NormalizedLandmark :=
  {| x := lx; y := ly; z := 0 |}.

(** A 478-point mesh with the given key points; the other points sit on
    the nose tip. *)
Definition mesh478 (nose leftEye rightEye chin forehead leftCheek rightCheek
                    : NormalizedLandmark) : Landmarks :=
  map (fun i =>
         if (i =? 1)%nat then nose
         else if (i =? 33)%nat then leftEye
         else if (i =? 263)%nat then rightEye
         else if (i =? 152)%nat then chin
         else if (i =? 10)%nat then forehead
         else if (i =? 234)%nat then leftCheek
         else if (i =? 454)%nat then rightCheek
         else nose)
      (seq 0 478).







(** ** Face selector *)

(** The bounding-box area of C8, from the four silhouette landmarks:
    |rightCheekX - leftCheekX| x |chinY - foreheadY|; [None] when one of
    the four is absent from the mesh. *)
Definition boundingBoxArea (face : Landmarks) : option Q :=
  match face !! 454%nat, face !! 234%nat, face !! 152%nat, face !! 10%nat with
  | Some rightCheek, Some leftCheek, Some chin, Some forehead =>
      Some (Qabs (x rightCheek - x leftCheek) * Qabs (y chin - y forehead))
  | _, _, _, _ => None
  end.

Lemma faceArea_boundingBoxArea face a :
  boundingBoxArea face = Some a -> faceArea face = Return a.
Proof.
  unfold boundingBoxArea, faceArea, at_index, FaceIDX.FOREHEAD, FaceIDX.CHIN,
    FaceIDX.LEFT_CHEEK, FaceIDX.RIGHT_CHEEK.
  destruct (face !! 454%nat), (face !! 234%nat), (face !! 152%nat),
    (face !! 10%nat); try discriminate.
  intros H. apply (inj Some) in H. rewrite <- H. reflexivity.
Qed.

Lemma boundingBoxArea_nonneg face a : boundingBoxArea face = Some a -> 0 <= a.
Proof.
  unfold boundingBoxArea.
  destruct (face !! 454%nat), (face !! 234%nat), (face !! 152%nat),
    (face !! 10%nat); try discriminate.
  intros H. apply (inj Some) in H. rewrite <- H.
  apply Qmult_le_0_compat; apply Qabs_nonneg.
Qed.

(** Invariant of the selection loop, entered at index [i] with the running
    best [(bestIndex, bestArea)]: the loop ends with an area at least the
    initial one and at least every area visited, and either keeps the
    initial best or picks the first visited face of that final area. *)
Lemma scanFaces_spec rest :
  forall i bestIndex bestArea,
    Forall (fun face => is_Some (boundingBoxArea face)) rest ->
    exists bestIndex' bestArea',
      scanFaces rest i bestIndex bestArea = Return (bestIndex', bestArea')
      /\ bestArea <= bestArea'
      /\ (forall k face a,
            rest !! k = Some face -> boundingBoxArea face = Some a ->
            a <= bestArea')
      /\ (bestIndex' = bestIndex /\ bestArea' = bestArea
          \/ exists k face,
               bestIndex' = (i + k)%nat
               /\ rest !! k = Some face
               /\ boundingBoxArea face = Some bestArea'
               /\ bestArea < bestArea'
               /\ forall j face' a',
                    (j < k)%nat -> rest !! j = Some face' ->
                    boundingBoxArea face' = Some a' -> a' < bestArea').
Proof.
  induction rest as [|face rest IH]; intros i bestIndex bestArea Hwf.
  - exists bestIndex, bestArea. split; [reflexivity|].
    split; [apply Qle_refl|]. split; [|left; auto].
    intros k face a Hk. rewrite lookup_nil in Hk. discriminate.
  - apply Forall_cons in Hwf as [[area Harea] Hwf].
    cbn [scanFaces]. rewrite (faceArea_boundingBoxArea _ _ Harea). cbn [bind].
    destruct (Qgtb area bestArea) eqn:E.
    + apply Qgtb_true in E.
      destruct (IH (S i) i area Hwf)
        as (bi & ba & Hscan & Hle & Hmax & Hsel).
      exists bi, ba. split; [exact Hscan|].
      split; [apply Qlt_le_weak, (Qlt_le_trans _ _ _ E Hle)|].
      split.
      * intros [|k] f a Hk Ha; cbn in Hk.
        -- injection Hk as <-. rewrite Harea in Ha. injection Ha as <-.
           exact Hle.
        -- exact (Hmax k f a Hk Ha).
      * right. destruct Hsel as [[-> ->]|(k & f & -> & Hk & Hf & Hlt & Hfirst)].
        -- exists 0%nat, face. rewrite Nat.add_0_r.
           repeat split; try assumption; try reflexivity. intros j ? ? Hj. lia.
        -- exists (S k), f. split; [lia|]. split; [exact Hk|].
           split; [exact Hf|]. split; [exact (Qlt_trans _ _ _ E Hlt)|].
           intros [|j] f' a' Hj Hj' Ha'; cbn in Hj'.
           ++ injection Hj' as <-. rewrite Harea in Ha'. injection Ha' as <-.
              exact Hlt.
           ++ apply (Hfirst j f' a'); [lia|assumption|assumption].
    + apply Qgtb_false in E.
      destruct (IH (S i) bestIndex bestArea Hwf)
        as (bi & ba & Hscan & Hle & Hmax & Hsel).
      exists bi, ba. split; [exact Hscan|]. split; [exact Hle|].
      split.
      * intros [|k] f a Hk Ha; cbn in Hk.
        -- injection Hk as <-. rewrite Harea in Ha. injection Ha as <-.
           exact (Qle_trans _ _ _ E Hle).
        -- exact (Hmax k f a Hk Ha).
      * destruct Hsel as [[-> ->]|(k & f & -> & Hk & Hf & Hlt & Hfirst)];
          [left; auto|right].
        exists (S k), f. split; [lia|]. split; [exact Hk|].
        split; [exact Hf|]. split; [exact Hlt|].
        intros [|j] f' a' Hj Hj' Ha'; cbn in Hj'.
        -- injection Hj' as <-. rewrite Harea in Ha'. injection Ha' as <-.
           exact (Qle_lt_trans _ _ _ E Hlt).
        -- apply (Hfirst j f' a'); [lia|assumption|assumption].
Qed.

(** [faceLandmarks[bestIndex]] is always in range. *)
Lemma scanFaces_index_lt rest :
  forall i bestIndex bestArea bestIndex' bestArea',
    scanFaces rest i bestIndex bestArea = Return (bestIndex', bestArea') ->
    bestIndex' = bestIndex \/ (i <= bestIndex' < i + length rest)%nat.
Proof.
  induction rest as [|face rest IH]; intros i bi ba bi' ba'; cbn [scanFaces].
  - intros [= <- <-]. left. reflexivity.
  - destruct (faceArea face) as [area|]; cbn [bind]; [|discriminate].
    destruct (Qgtb area ba); intros H; apply IH in H; cbn [length]; lia.
Qed.

(** Two faces of areas 0.10 and 0.25, and a third that ties with the
    second. *)
Definition smallFace : Landmarks :=
  mesh478 (landmarkAt 0.2 0.3) (landmarkAt 0.15 0.25) (landmarkAt 0.25 0.25)
          (landmarkAt 0.2 0.6) (landmarkAt 0.2 0.1)
          (landmarkAt 0.1 0.3) (landmarkAt 0.3 0.3).

Definition largeFace : Landmarks :=
  mesh478 (landmarkAt 0.6 0.5) (landmarkAt 0.5 0.4) (landmarkAt 0.7 0.4)
          (landmarkAt 0.6 0.75) (landmarkAt 0.6 0.25)
          (landmarkAt 0.35 0.5) (landmarkAt 0.85 0.5)%Q.




(** ** Challenge orchestrator *)

(** Projections of a hook after the setters of the loop. *)
Ltac hook_cbn :=
  cbn [state motionValidator blinkDetector centerFrames stepStartTime
       currentStepRef isRunningRef hasAdvanced timers
       overallStatus currentStepIndex stepStatus feedbackMessage
       motionProgress isFaceDetected timeRemaining
       setState whenActive set_centerFrames set_motionValidator
       set_blinkDetector with_isFaceDetected with_feedbackMessage
       with_motionProgress with_timeRemaining failStep].

(** A tick that finds the session not running leaves the verdict, the step
    and the message as they are. *)
Lemma detectLoop_not_running steps now frame h h' :
  isRunningRef h = false ->
  detectLoop steps now frame h = Return h' ->
  overallStatus (state h') = overallStatus (state h)
  /\ stepStatus (state h') = stepStatus (state h)
  /\ feedbackMessage (state h') = feedbackMessage (state h)
  /\ isRunningRef h' = false
  /\ currentStepRef h' = currentStepRef h.
Proof.
  intros Hrun. unfold detectLoop.
  destruct frame as [|fl bs].
  - intros [= <-]. auto.
  - destruct (selectLargestFace fl bs) as [[sel|]|]; cbn [bind];
      try discriminate.
    + cbn [setState isRunningRef]. rewrite Hrun. intros [= <-].
      cbn. auto.
    + rewrite Hrun. intros [= <-]. cbn. auto.
Qed.

Lemma run_frames_not_running steps frames :
  forall h h',
    isRunningRef h = false ->
    run steps (map (fun tf => EvFrame (fst tf) (snd tf)) frames) h = Return h' ->
    overallStatus (state h') = overallStatus (state h)
    /\ stepStatus (state h') = stepStatus (state h)
    /\ feedbackMessage (state h') = feedbackMessage (state h)
    /\ isRunningRef h' = false
    /\ currentStepRef h' = currentStepRef h.
Proof.
  induction frames as [|[now frame] frames IH]; intros h h' Hrun.
  - intros [= <-]. auto.
  - cbn [map run step fst snd].
    destruct (detectLoop steps now frame h) as [h1|] eqn:E; cbn [bind];
      [|discriminate].
    destruct (detectLoop_not_running _ _ _ _ _ Hrun E)
      as (Ho & Hs & Hm & Hr & Hc).
    intros H. destruct (IH _ _ Hr H) as (Ho' & Hs' & Hm' & Hr' & Hc').
    repeat split; congruence.
Qed.

Definition timeoutMessage : string := "⏰ Time expired — please try again".

Lemma detectLoop_timeout steps h now faceLandmarks faceBlendshapes selected :
  isRunningRef h = true ->
  hasAdvanced h = false ->
  (5000 < now - stepStartTime h)%Z ->
  selectLargestFace faceLandmarks faceBlendshapes = Return (Some selected) ->
  detectLoop steps now (Detection faceLandmarks faceBlendshapes) h
  = Return (failStep timeoutMessage (setState (with_isFaceDetected true) h)).
Proof.
  intros Hrun Hadv Hlate Hsel. unfold detectLoop. rewrite Hsel. cbn [bind].
  cbn [setState isRunningRef hasAdvanced stepStartTime]. rewrite Hrun, Hadv.
  apply Z.ltb_lt in Hlate. unfold STEP_TIMEOUT_MS. rewrite Hlate.
  reflexivity.
Qed.

(** *** Fixtures *)

(** A frontal face: nose on the eye line and midway between the eyes. *)
Definition frontalMesh : Landmarks :=
  mesh478 (landmarkAt 0.5 0.4) (landmarkAt 0.4 0.4) (landmarkAt 0.6 0.4)
          (landmarkAt 0.5 0.8) (landmarkAt 0.5 0.2)
          (landmarkAt 0.3 0.5) (landmarkAt 0.7 0.5).

Definition sampleSteps : list ChallengeStep :=
  [center; head turnLeft; blink; head lookUp; blink; head turnRight; blink].

(** The hook just after [startChallenge] at time 1000. *)
Definition startedHook : Hook :=
  match startChallenge sampleSteps 1000 initialHook with
  | Return h => h
  | TypeError => initialHook
  end.

(** C4, as stated, fails on ticks that select no face: the session is
    running with an active step that has not advanced, 6000 ms have
    elapsed, and the tick leaves it running; so do fifty later ticks. *)
Lemma timeout_not_checked_without_face :
  (overallStatus (state startedHook) = running
   /\ stepStatus (state startedHook) = step_active
   /\ isRunningRef startedHook = true
   /\ hasAdvanced startedHook = false
   /\ (5000 < 7000 - stepStartTime startedHook)%Z)
  /\ (exists h',
        detectLoop sampleSteps 7000 (Detection [] None) startedHook = Return h'
        /\ overallStatus (state h') = running
        /\ stepStatus (state h') = step_active
        /\ isRunningRef h' = true)
  /\ (exists h',
        run sampleSteps (repeat (EvFrame 600000 (Detection [] None)) 50)
          startedHook = Return h'
        /\ overallStatus (state h') = running
        /\ stepStatus (state h') = step_active
        /\ isRunningRef h' = true).
Proof.
  split; [repeat split|].
  split; eexists; (split; [vm_compute; reflexivity|repeat split]).
Qed.

(** C4, amended. While the session is running and the step has not
    advanced, a tick that selects a face more than 5000 ms after the step
    started fails the session with the timeout message and stops it; the
    ticks that follow leave it failed on the same step (no retry).  A tick
    that selects no face does not check the timeout. *)
Theorem step_timeout_fails_session steps h now faceLandmarks faceBlendshapes
    selected :
  isRunningRef h = true ->
  hasAdvanced h = false ->
  (5000 < now - stepStartTime h)%Z ->
  selectLargestFace faceLandmarks faceBlendshapes = Return (Some selected) ->
  exists h',
    detectLoop steps now (Detection faceLandmarks faceBlendshapes) h
    = Return h'
    /\ overallStatus (state h') = failed
    /\ stepStatus (state h') = step_failed
    /\ feedbackMessage (state h') = "⏰ Time expired — please try again"
    /\ isRunningRef h' = false
    /\ currentStepRef h' = currentStepRef h
    /\ forall frames h'',
         run steps (map (fun tf => EvFrame (fst tf) (snd tf)) frames) h'
         = Return h'' ->
         overallStatus (state h'') = failed
         /\ stepStatus (state h'') = step_failed
         /\ feedbackMessage (state h'') = "⏰ Time expired — please try again"
         /\ currentStepRef h'' = currentStepRef h.
Proof.
  intros Hrun Hadv Hlate Hsel.
  eexists. split; [apply (detectLoop_timeout _ _ _ _ _ _ Hrun Hadv Hlate Hsel)|].
  repeat (split; [reflexivity|]).
  intros frames h'' H.
  apply run_frames_not_running in H as (Ho & Hs & Hm & _ & Hc);
    [|reflexivity].
  repeat split; assumption.
Qed.

Lemma step_timeout_fails_session_witness :
  exists h',
    detectLoop sampleSteps 7000 (Detection [frontalMesh] None) startedHook
    = Return h'
    /\ overallStatus (state h') = failed
    /\ feedbackMessage (state h') = "⏰ Time expired — please try again".
Proof.
  destruct (step_timeout_fails_session sampleSteps startedHook 7000
              [frontalMesh] None
              {| landmarks := frontalMesh; blendshapes := None;
                 faceIndex := 0 |})
    as (h' & Hret & Hfailed & _ & Hmsg & _).
  - reflexivity.
  - reflexivity.
  - reflexivity.
  - vm_compute. reflexivity.
  - exists h'. repeat split; assumption.
Defined.

(** *** Center hold *)


(** [counter / 15], capped at 1. *)
Definition holdProgress (counter : nat) : Q :=
  Qmin 1 (inject_Z (Z.of_nat counter) / 15).














(** Fifteen ticks, 16 ms apart, each seeing the frontal face. *)
Definition frontalTicks (n : nat) : list Event :=
  map (fun k => EvFrame (1000 + 16 * Z.of_nat k)
                  (Detection [frontalMesh] None))
      (seq 1 n).


(** *** The running flag and the observable status *)

(** On every hook reached from [initialHook], the ref [isRunningRef] is set
    exactly when the observable status is Running, and while it is set the
    step is Active exactly when it has not advanced. *)
Definition consistent (h : Hook) : Prop :=
  (isRunningRef h = true <-> overallStatus (state h) = running)
  /\ (isRunningRef h = true ->
      stepStatus (state h) = step_active /\ hasAdvanced h = false
      \/ stepStatus (state h) = step_success /\ hasAdvanced h = true).

Lemma consistent_initial : consistent initialHook.
Proof. split; [split; discriminate|discriminate]. Qed.

Lemma consistent_setState f h :
  (forall prev, overallStatus (f prev) = overallStatus prev
                /\ stepStatus (f prev) = stepStatus prev) ->
  consistent h -> consistent (setState f h).
Proof.
  intros Hf [Hrun Hstep]. destruct (Hf (state h)) as [Ho Hs].
  unfold consistent. hook_cbn. rewrite Ho, Hs. split; assumption.
Qed.

Lemma whenActive_keeps f :
  (forall prev, overallStatus (f prev) = overallStatus prev
                /\ stepStatus (f prev) = stepStatus prev) ->
  forall prev, overallStatus (whenActive f prev) = overallStatus prev
               /\ stepStatus (whenActive f prev) = stepStatus prev.
Proof.
  intros Hf prev. unfold whenActive.
  destruct (stepStatus prev) eqn:E; rewrite ?E; auto.
  destruct (Hf prev) as [Ho Hs]. rewrite Ho, Hs. auto.
Qed.

Lemma consistent_failStep reason h : consistent (failStep reason h).
Proof. split; [split; discriminate|discriminate]. Qed.

Lemma consistent_advanceStep steps h :
  consistent h -> consistent (advanceStep steps h).
Proof.
  intros Hc. unfold advanceStep.
  destruct (hasAdvanced h) eqn:Ha; [exact Hc|]. destruct Hc as [Hrun Hstep].
  destruct (length steps <=? currentStepRef h + 1)%nat.
  - split; [split; discriminate|discriminate].
  - unfold consistent. hook_cbn. split; [exact Hrun|]. intros _. right. auto.
Qed.

Lemma consistent_refs h h' :
  state h' = state h -> isRunningRef h' = isRunningRef h ->
  hasAdvanced h' = hasAdvanced h ->
  consistent h -> consistent h'.
Proof. unfold consistent. intros -> -> ->. tauto. Qed.

Lemma consistent_centerStep steps pose h :
  consistent h -> consistent (centerStep steps pose h).
Proof.
  intros Hc. unfold centerStep.
  destruct (_ && _).
  - match goal with |- context [if ?c then _ else _] => destruct c end;
      [apply consistent_advanceStep|];
      (apply consistent_setState;
       [apply whenActive_keeps; intros prev; split; reflexivity|]);
      (eapply consistent_refs; [| | |exact Hc]; reflexivity).
  - apply consistent_setState;
      [apply whenActive_keeps; intros prev; split; reflexivity|].
    eapply consistent_refs; [| | |exact Hc]; reflexivity.
Qed.

Lemma consistent_headStep steps s direction pose h h' :
  consistent h -> headStep steps s direction pose h = Return h' ->
  consistent h'.
Proof.
  intros Hc. unfold headStep.
  destruct (MotionValidator.addFrame _ _ _) as [[r mv]|]; cbn [bind fst snd];
    [|discriminate].
  destruct (rejectionReason r).
  - intros [= <-]. apply consistent_failStep.
  - intros [= <-].
    destruct (isValid r); [apply consistent_advanceStep|];
      (apply consistent_setState;
       [apply whenActive_keeps; intros prev; split; reflexivity|]);
      (eapply consistent_refs; [| | |exact Hc]; reflexivity).
Qed.

Lemma consistent_blinkStep steps blendshapes h h' :
  consistent h -> blinkStep steps blendshapes h = Return h' ->
  consistent h'.
Proof.
  intros Hc. unfold blinkStep. destruct blendshapes as [bs|].
  - destruct (BlinkDetector.addFrame _ _) as [[b bd]|]; cbn [bind fst snd];
      [|discriminate].
    destruct b; intros [= <-]; [apply consistent_advanceStep|];
      (apply consistent_setState;
       [apply whenActive_keeps; intros prev; split; reflexivity|]);
      (eapply consistent_refs; [| | |exact Hc]; reflexivity).
  - intros [= <-]. exact Hc.
Qed.

Lemma consistent_detectLoop steps now frame h h' :
  consistent h -> detectLoop steps now frame h = Return h' -> consistent h'.
Proof.
  intros Hc. unfold detectLoop. destruct frame as [|fl bs].
  - intros [= <-]. exact Hc.
  - destruct (selectLargestFace fl bs) as [[sel|]|]; cbn [bind];
      [| |discriminate].
    + assert (consistent (setState (with_isFaceDetected true) h)) as Hc1.
      { apply consistent_setState; [intros prev; split; reflexivity|exact Hc]. }
      destruct (isRunningRef (setState (with_isFaceDetected true) h));
        [|intros [= <-]; exact Hc1].
      destruct (_ && _); [intros [= <-]; apply consistent_failStep|].
      destruct (extractHeadPose _) as [pose|]; cbn [bind]; [|discriminate].
      match goal with
      | |- context [setState (whenActive ?f) ?h0] =>
          assert (consistent (setState (whenActive f) h0)) as Hc2
      end.
      { apply consistent_setState; [|exact Hc1].
        apply whenActive_keeps. intros prev. split; reflexivity. }
      hook_cbn.
      destruct (steps !! currentStepRef h) as [[|direction|]|];
        [| | |discriminate].
      * intros [= <-]. apply consistent_centerStep. exact Hc2.
      * apply consistent_headStep. exact Hc2.
      * apply consistent_blinkStep. exact Hc2.
    + intros [= <-]. apply consistent_setState; [|exact Hc].
      intros prev. destruct (isRunningRef h); [|split; reflexivity].
      destruct (stepStatus prev) eqn:E; rewrite <- ?E; split; reflexivity.
Qed.

Lemma consistent_step steps ev h h' :
  consistent h -> step steps ev h = Return h' -> consistent h'.
Proof.
  intros Hc. destruct ev as [now| |now frame|now]; cbn [step].
  - unfold startChallenge. destruct (getInstructionMessage _); cbn [bind];
      [|discriminate].
    intros [= <-]. split; [split; reflexivity|]. intros _. left. auto.
  - intros [= <-]. split; [split; discriminate|discriminate].
  - apply consistent_detectLoop. exact Hc.
  - destruct (timers h) as [|nextIndex rest]; [intros [= <-]; exact Hc|].
    unfold advanceTimeout. destruct (getInstructionMessage _); cbn [bind];
      [|discriminate].
    intros [= <-]. destruct Hc as [Hrun Hstep]. unfold consistent. hook_cbn.
    split; [exact Hrun|]. intros _. left. auto.
Qed.

Lemma consistent_reachable steps evs :
  forall h h', consistent h -> run steps evs h = Return h' -> consistent h'.
Proof.
  induction evs as [|ev evs IH]; intros h h' Hc; cbn [run].
  - intros [= <-]. exact Hc.
  - destruct (step steps ev h) as [h1|] eqn:E; cbn [bind]; [|discriminate].
    apply IH. exact (consistent_step _ _ _ _ Hc E).
Qed.

(** On a reachable hook, "Running with an Active step" as the presentation
    layer sees it is the condition the loop tests on its refs. *)
Lemma running_active_refs steps evs h :
  run steps evs initialHook = Return h ->
  overallStatus (state h) = running ->
  stepStatus (state h) = step_active ->
  isRunningRef h = true /\ hasAdvanced h = false.
Proof.
  intros Hreach Hrunning Hactive.
  destruct (consistent_reachable steps evs _ _ consistent_initial Hreach)
    as [Hrun Hstep].
  apply Hrun in Hrunning. split; [exact Hrunning|].
  destruct (Hstep Hrunning) as [[_ Ha]|[Hs _]]; [exact Ha|congruence].
Qed.

(** * Further properties *)

(** ** Motion validator: windows, reset and results *)

(** The three ways [addFrame] judges a window. *)
Definition judged (direction : ChallengeDirection) (w : list HeadPose)
    (r : MotionResult) : Prop :=
  r = notYet /\ (length w < 6)%nat
  \/ r = rejected /\ (6 <= length w)%nat
     /\ Exists (fun d => MAX_FRAME_DELTA < Qabs d) (axisDeltas direction w)
  \/ r = scored direction w /\ (6 <= length w)%nat
     /\ Forall (fun d => Qabs d <= MAX_FRAME_DELTA) (axisDeltas direction w).

Lemma addFrame_judged self pose direction r self' :
  MotionValidator.addFrame self pose direction = Return (r, self') ->
  self' = validatorWith (MotionValidator.window self pose)
  /\ judged direction (MotionValidator.window self pose) r.
Proof.
  intros H. destruct (addFrame_cases self pose direction) as (r0 & Hr & Hcase).
  rewrite Hr in H. injection H as <- <-. split; [reflexivity|exact Hcase].
Qed.

Lemma slice_last_short n (l : list HeadPose) :
  (length l <= n)%nat -> MotionValidator.slice_last n l = l.
Proof.
  intros Hlen. unfold MotionValidator.slice_last.
  replace (_ - _)%nat with 0%nat by lia. reflexivity.
Qed.

Lemma length_slice_last n (l : list HeadPose) :
  length (MotionValidator.slice_last n l) = Nat.min (length l) n.
Proof. unfold MotionValidator.slice_last. rewrite length_drop. lia. Qed.

(** The last call of a non-empty feed judges the final window. *)
Lemma feedPoses_last direction poses :
  forall self rs self',
    poses <> [] ->
    feedPoses self poses direction = Return (rs, self') ->
    exists rs0 r,
      rs = rs0 ++ [r]
      /\ MotionValidator.isStarted self' = true
      /\ judged direction (MotionValidator.poseHistory self') r.
Proof.
  induction poses as [|pose rest IH]; intros self rs self' Hne; [contradiction|].
  cbn [feedPoses].
  destruct (MotionValidator.addFrame self pose direction) as [[r s1]|] eqn:E;
    cbn [bind fst snd]; [|discriminate].
  destruct (feedPoses s1 rest direction) as [[rs1 s2]|] eqn:E2;
    cbn [bind fst snd]; [|discriminate].
  intros [= <- <-].
  destruct rest as [|pose' rest'].
  - cbn [feedPoses] in E2. injection E2 as <- <-.
    apply addFrame_judged in E as [-> Hj].
    exists [], r. split; [reflexivity|]. split; [reflexivity|exact Hj].
  - destruct (IH s1 rs1 s2) as (rs0 & r' & -> & Hst & Hj);
      [discriminate|exact E2|].
    exists (r :: rs0), r'. split; [reflexivity|]. split; assumption.
Qed.

(** X1. Fed to a fresh validator, any sequence of poses leaves in the
    window exactly its last 18 poses, one result per pose, and the
    validator is started exactly when a pose was fed. *)
Theorem window_holds_last_18_fed direction poses :
  exists rs self',
    feedPoses MotionValidator.new poses direction = Return (rs, self')
    /\ length rs = length poses
    /\ MotionValidator.poseHistory self' = drop (length poses - 18) poses
    /\ length (MotionValidator.poseHistory self') = Nat.min (length poses) 18
    /\ MotionValidator.isStarted self'
       = match poses with [] => false | _ => true end.
Proof.
  destruct (feedPoses_history direction poses MotionValidator.new)
    as (rs & self' & Hfeed & Hlen & Hhist); [cbn; lia|].
  cbn [MotionValidator.new MotionValidator.poseHistory app] in Hhist.
  exists rs, self'. split; [exact Hfeed|]. split; [exact Hlen|].
  split; [exact Hhist|]. split.
  - rewrite Hhist. apply length_slice_last.
  - destruct poses as [|pose rest].
    + cbn in Hfeed. injection Hfeed as <- <-. reflexivity.
    + destruct (feedPoses_last direction (pose :: rest) _ _ _
                  ltac:(discriminate) Hfeed) as (_ & _ & _ & Hst & _).
      exact Hst.
Qed.



Lemma feedPoses_few direction more :
  forall self,
    (length (MotionValidator.poseHistory self) + length more < 6)%nat ->
    exists self',
      feedPoses self more direction
      = Return (repeat notYet (length more), self')
      /\ MotionValidator.poseHistory self'
         = MotionValidator.poseHistory self ++ more.
Proof.
  induction more as [|pose rest IH]; intros self Hlen.
  - exists self. split; [reflexivity|]. rewrite app_nil_r. reflexivity.
  - cbn [length] in Hlen.
    assert (MotionValidator.window self pose
            = MotionValidator.poseHistory self ++ [pose]) as Hw.
    { rewrite window_slice_last. apply slice_last_short.
      rewrite length_app. cbn [length]. unfold WINDOW_SIZE. lia. }
    cbn [feedPoses]. rewrite addFrame_short;
      [|rewrite Hw, length_app; cbn [length]; lia].
    cbn [bind snd fst]. rewrite Hw.
    destruct (IH {| MotionValidator.poseHistory :=
                      MotionValidator.poseHistory self ++ [pose];
                    MotionValidator._isStarted := true |})
      as (self' & Hfeed & Hhist).
    + cbn [MotionValidator.poseHistory]. rewrite length_app. cbn [length]. lia.
    + rewrite Hfeed. cbn [bind fst snd]. exists self'.
      split; [reflexivity|]. rewrite Hhist.
      cbn [MotionValidator.poseHistory]. rewrite <- app_assoc. reflexivity.
Qed.

(** X3. [reset] forgets the history: the first five calls after a reset
    return [{isValid:false, progress:0}] without a rejection reason,
    whatever the poses are (jumps included), and the window holds just the
    poses fed since. *)
Theorem no_judgment_in_first_five_frames_after_reset self direction poses :
  (length poses < 6)%nat ->
  exists self',
    feedPoses (MotionValidator.reset self) poses direction
    = Return (repeat {| isValid := false; progress := 0;
                        rejectionReason := None |} (length poses), self')
    /\ MotionValidator.poseHistory self' = poses.
Proof.
  intros Hlen.
  destruct (feedPoses_few direction poses (MotionValidator.reset self))
    as (self' & Hfeed & Hhist); [cbn; lia|].
  exists self'. split; [exact Hfeed|exact Hhist].
Qed.

Lemma no_judgment_in_first_five_frames_after_reset_witness :
  exists self',
    feedPoses
      (MotionValidator.reset (validatorWith (slowLeft5 ++ [poseAt 0.35 0])))
      [poseAt 0 0; poseAt 0.9 0; poseAt (-0.9) 0] turnLeft
    = Return (repeat notYet 3, self')
    /\ MotionValidator.poseHistory self'
       = [poseAt 0 0; poseAt 0.9 0; poseAt (-0.9) 0].
Proof.
  apply (no_judgment_in_first_five_frames_after_reset
           (validatorWith (slowLeft5 ++ [poseAt 0.35 0])) turnLeft
           [poseAt 0 0; poseAt 0.9 0; poseAt (-0.9) 0]).
  cbn. lia.
Defined.

Lemma clamp01_at_least_1 (v : Q) : 1 <= v -> clamp01 v == 1.
Proof.
  intros Hv. unfold clamp01. apply Q.min_l.
  apply Qle_trans with v; [exact Hv|apply Q.le_max_r].
Qed.

Lemma clamp01_nonpositive (v : Q) : v <= 0 -> clamp01 v == 0.
Proof.
  intros Hv. unfold clamp01. rewrite (Q.max_l _ _ Hv).
  apply Q.min_r. discriminate.
Qed.

(** X4. A valid result always carries full progress and no rejection
    reason, and is only returned on a window of at least 6 poses. *)
Theorem valid_result_has_full_progress self pose direction r self' :
  MotionValidator.addFrame self pose direction = Return (r, self') ->
  isValid r = true ->
  progress r == 1
  /\ rejectionReason r = None
  /\ (6 <= length (MotionValidator.poseHistory self') <= 18)%nat.
Proof.
  intros Hr Hvalid. apply addFrame_judged in Hr as [-> Hj].
  cbn [validatorWith MotionValidator.poseHistory].
  assert (length (MotionValidator.window self pose) <= 18 \/
          (18 < length (MotionValidator.window self pose))%nat)%nat
    as Hbound by lia.
  destruct Hj as [[-> _]|[(-> & _)|(-> & Hlen & _)]]; try discriminate.
  cbn [scored isValid progress rejectionReason] in *.
  apply andb_true_iff in Hvalid as [Hdisp _]. apply Qgeb_true in Hdisp.
  split; [|split; [reflexivity|]].
  - apply clamp01_at_least_1. apply Qle_shift_div_l;
      [apply minRequired_pos|]. rewrite Qmult_1_l. exact Hdisp.
  - split; [exact Hlen|]. rewrite window_slice_last, length_slice_last.
    unfold WINDOW_SIZE. lia.
Qed.

Lemma valid_result_has_full_progress_witness :
  exists r self',
    MotionValidator.addFrame (validatorWith ramp17) (rampYaw 17) turnLeft
    = Return (r, self')
    /\ isValid r = true /\ progress r == 1.
Proof.
  destruct (MotionValidator.addFrame (validatorWith ramp17) (rampYaw 17)
              turnLeft) as [[r self']|] eqn:E; [|vm_compute in E; discriminate].
  exists r, self'. split; [reflexivity|].
  assert (isValid r = true) as Hv.
  { vm_compute in E. injection E as <- _. reflexivity. }
  split; [exact Hv|].
  exact (proj1 (valid_result_has_full_progress _ _ _ _ _ E Hv)).
Defined.

(** The direction opposite to a direction, on the same axis. *)
Definition oppositeDirection (direction : ChallengeDirection)
  : ChallengeDirection :=
  match direction with
  | turnLeft => turnRight
  | turnRight => turnLeft
  | lookUp => lookDown
  | lookDown => lookUp
  end.

Lemma axisDeltas_opposite direction w :
  axisDeltas (oppositeDirection direction) w = axisDeltas direction w.
Proof. destruct direction; reflexivity. Qed.

Lemma totalDisplacement_opposite direction w :
  totalDisplacement (oppositeDirection direction) w
  == - totalDisplacement direction w.
Proof.
  unfold totalDisplacement. cbv zeta.
  replace (selectedAxis (oppositeDirection direction))
    with (selectedAxis direction) by (destruct direction; reflexivity).
  destruct direction; cbn [oppositeDirection expectedSign]; ring.
Qed.

(** X5. A turn judged valid for one direction is, on the same call, not
    valid for the opposite direction: there the result has progress 0 and
    no rejection reason. *)
Theorem valid_turn_is_invalid_for_opposite_direction self pose direction r self' :
  MotionValidator.addFrame self pose direction = Return (r, self') ->
  isValid r = true ->
  exists r',
    MotionValidator.addFrame self pose (oppositeDirection direction)
    = Return (r', self')
    /\ isValid r' = false
    /\ progress r' == 0
    /\ rejectionReason r' = None.
Proof.
  intros Hr Hvalid. apply addFrame_judged in Hr as [-> Hj].
  destruct Hj as [[-> _]|[(-> & _)|(-> & Hlen & Hsmooth)]]; try discriminate.
  cbn [scored isValid] in Hvalid.
  apply andb_true_iff in Hvalid as [Hdisp _]. apply Qgeb_true in Hdisp.
  pose proof (minRequired_pos direction) as Hpos.
  pose proof (minRequired_pos (oppositeDirection direction)) as Hpos'.
  pose proof (totalDisplacement_opposite direction
                (MotionValidator.window self pose)) as Hopp.
  exists (scored (oppositeDirection direction) (MotionValidator.window self pose)).
  split.
  - apply addFrame_scored; [exact Hlen|].
    rewrite axisDeltas_opposite. exact Hsmooth.
  - cbn [scored isValid progress rejectionReason].
    split; [|split; [|reflexivity]].
    + apply andb_false_iff. left. apply not_true_iff_false. intros H.
      apply Qgeb_true in H. lra.
    + apply clamp01_nonpositive. apply Qle_shift_div_r; [exact Hpos'|]. lra.
Qed.

Lemma valid_turn_is_invalid_for_opposite_direction_witness :
  exists r' self',
    MotionValidator.addFrame (validatorWith ramp17) (rampYaw 17) turnRight
    = Return (r', self')
    /\ isValid r' = false /\ progress r' == 0.
Proof.
  destruct (MotionValidator.addFrame (validatorWith ramp17) (rampYaw 17)
              turnLeft) as [[r self']|] eqn:E; [|vm_compute in E; discriminate].
  assert (isValid r = true) as Hv.
  { vm_compute in E. injection E as <- _. reflexivity. }
  destruct (valid_turn_is_invalid_for_opposite_direction _ _ _ _ _ E Hv)
    as (r' & Hr' & Hinv & Hp & _).
  exists r', self'. split; [exact Hr'|]. split; assumption.
Defined.

Lemma deltas_constant (vals : list Q) (v : Q) :
  Forall (fun a => a == v) vals -> Forall (fun d => d == 0) (deltas vals).
Proof.
  induction vals as [|a [|b rest] IH]; intros Hall; cbn [deltas];
    try apply List.Forall_nil.
  apply Forall_cons in Hall as [Ha Hall].
  pose proof Hall as Hall'. apply Forall_cons in Hall' as [Hb _].
  apply List.Forall_cons; [lra|apply IH; exact Hall].
Qed.

Lemma last_constant (vals : list Q) (v d : Q) :
  vals <> [] -> Forall (fun a => a == v) vals -> List.last vals d == v.
Proof.
  induction vals as [|a [|b rest] IH]; intros Hne Hall; [contradiction| |].
  - apply Forall_cons in Hall as [Ha _]. exact Ha.
  - apply Forall_cons in Hall as [_ Hall].
    change (List.last (a :: b :: rest) d) with (List.last (b :: rest) d).
    apply IH; [discriminate|exact Hall].
Qed.

(** X6. A flat window (at least 6 poses, all with the same value on the
    selected axis) is neither rejected nor valid, and its progress is 0. *)
Theorem flat_window_is_not_valid self pose direction (v : Q) :
  (6 <= length (MotionValidator.window self pose))%nat ->
  Forall (fun p => selectedAxis direction p == v)
    (MotionValidator.window self pose) ->
  exists r self',
    MotionValidator.addFrame self pose direction = Return (r, self')
    /\ isValid r = false
    /\ progress r == 0
    /\ rejectionReason r = None.
Proof.
  intros Hlen Hflat.
  set (w := MotionValidator.window self pose) in *.
  assert (Forall (fun a => a == v) (map (selectedAxis direction) w)) as Hvals.
  { apply Forall_map. exact Hflat. }
  assert (totalDisplacement direction w == 0) as Hdisp.
  { unfold totalDisplacement.
    destruct w as [|p0 rest] eqn:Ew; [cbn in Hlen; lia|].
    rewrite (last_constant (map (selectedAxis direction) (p0 :: rest)) v 0);
      [|discriminate|exact Hvals].
    cbn [map hd]. cbn [map] in Hvals.
    apply Forall_cons in Hvals as [H0 _]. rewrite H0. ring. }
  exists (scored direction w), (validatorWith w). split.
  - apply addFrame_scored; [exact Hlen|].
    apply deltas_constant in Hvals. unfold axisDeltas.
    eapply Forall_impl; [exact Hvals|]. intros d Hd. cbn beta.
    rewrite Hd. qcompute.
  - pose proof (minRequired_pos direction) as Hpos.
    cbn [scored isValid progress rejectionReason].
    split; [|split; [|reflexivity]].
    + apply andb_false_iff. left. apply not_true_iff_false. intros H.
      apply Qgeb_true in H. lra.
    + apply clamp01_nonpositive. apply Qle_shift_div_r; [exact Hpos|]. lra.
Qed.

Lemma flat_window_is_not_valid_witness :
  exists r self',
    MotionValidator.addFrame (validatorWith (repeat (poseAt 0.2 0.1) 17))
      (poseAt 0.2 (-0.3)) turnRight
    = Return (r, self')
    /\ isValid r = false /\ progress r == 0 /\ rejectionReason r = None.
Proof.
  apply (flat_window_is_not_valid
           (validatorWith (repeat (poseAt 0.2 0.1) 17)) (poseAt 0.2 (-0.3))
           turnRight 0.2).
  - cbn. lia.
  - repeat (apply List.Forall_cons; [reflexivity|]). apply List.Forall_nil.
Defined.

(** ** Blink detector: sequences of frames *)

Lemma hasScores_functional input l r l' r' :
  hasScores input l r -> hasScores input l' r' -> l = l' /\ r = r'.
Proof.
  intros (c & rest & lb & rb & -> & Hl & Hr & <- & <-)
         (c' & rest' & lb' & rb' & E & Hl' & Hr' & <- & <-).
  injection E as <- <-. rewrite Hl in Hl'. rewrite Hr in Hr'.
  injection Hl' as <-. injection Hr' as <-. auto.
Qed.

(** X7. A static picture never passes: the same input fed any number of
    times to a detector that was just reset never makes [addFrame] return
    true, whatever the scores are. *)
Theorem static_scores_never_detect self input n rs self' :
  feedBlinks (BlinkDetector.reset self) (repeat input n) = Return (rs, self') ->
  rs = repeat false n /\ BlinkDetector.isDetected self' = false.
Proof.
  change (BlinkDetector.reset self) with (inPhase waiting).
  assert (forall n d rs self',
            BlinkDetector.phase d = waiting
            \/ BlinkDetector.phase d = eyes_closed
               /\ (exists l r, hasScores input l r /\ 0.4 < l /\ 0.4 < r) ->
            feedBlinks d (repeat input n) = Return (rs, self') ->
            rs = repeat false n /\ BlinkDetector.isDetected self' = false)
    as Hgen.
  { clear. induction n as [|n IH]; intros d rs self' Hd; cbn [repeat feedBlinks].
    - intros [= <- <-]. split; [reflexivity|].
      unfold BlinkDetector.isDetected.
      destruct Hd as [->|[-> _]]; reflexivity.
    - destruct (BlinkDetector.addFrame d input) as [[b d1]|] eqn:E;
        cbn [bind fst snd]; [|discriminate].
      destruct (feedBlinks d1 (repeat input n)) as [[rs1 d2]|] eqn:E2;
        cbn [bind fst snd]; [|discriminate].
      intros [= <- <-].
      destruct (addFrame_inv _ _ _ _ E)
        as [(-> & -> & Hp)|[(-> & Hp & Hp' & l & r & Hs & Hl & Hr)
           |[(-> & Hp & Hp' & Hs)|(-> & -> & Hp)]]].
      + exfalso. destruct Hd as [Hd|[Hd _]]; congruence.
      + exfalso. destruct Hd as [Hd|[_ (l0 & r0 & Hs0 & Hl0 & _)]];
          [congruence|].
        destruct (hasScores_functional _ _ _ _ _ Hs Hs0) as [-> _]. lra.
      + destruct (IH d1 rs1 d2) as [-> Hdet]; [right; auto|exact E2|].
        auto.
      + destruct (IH d rs1 d2) as [-> Hdet]; [exact Hd|exact E2|]. auto. }
  apply Hgen. left. reflexivity.
Qed.

Lemma static_scores_never_detect_witness :
  feedBlinks (BlinkDetector.reset (inPhase detected))
    (repeat (eyeScores 0.9 0.9) 40)
  = Return (repeat false 40, inPhase eyes_closed).
Proof.
  destruct (feedBlinks (BlinkDetector.reset (inPhase detected))
              (repeat (eyeScores 0.9 0.9) 40)) as [[rs d]|] eqn:E;
    [|vm_compute in E; discriminate].
  destruct (static_scores_never_detect _ _ _ _ _ E) as [-> _].
  vm_compute in E. injection E as <-. reflexivity.
Defined.

(** X8. Fed to a detector that was just reset, any sequence of inputs
    yields some falses followed only by trues; the first call never
    returns true, and the detector is Detected at the end exactly when a
    true was returned. *)
Theorem blink_results_are_false_then_true self inputs rs self' :
  feedBlinks (BlinkDetector.reset self) inputs = Return (rs, self') ->
  exists k,
    (k <= length inputs)%nat
    /\ rs = repeat false k ++ repeat true (length inputs - k)
    /\ (inputs <> [] -> (1 <= k)%nat)
    /\ (BlinkDetector.isDetected self' = true <-> (k < length inputs)%nat).
Proof.
  change (BlinkDetector.reset self) with (inPhase waiting).
  assert (forall inputs rs self',
            feedBlinks (inPhase detected) inputs = Return (rs, self') ->
            rs = repeat true (length inputs) /\ self' = inPhase detected)
    as Hdone.
  { clear. induction inputs as [|input rest IH]; intros rs self';
      cbn [feedBlinks].
    - intros [= <- <-]. auto.
    - rewrite addFrame_detected. cbn [bind fst snd].
      destruct (feedBlinks (inPhase detected) rest) as [[rs1 d1]|] eqn:E;
        cbn [bind fst snd]; [|discriminate].
      intros [= <- <-]. destruct (IH _ _ eq_refl) as [-> ->]. auto. }
  assert (forall inputs d rs self',
            BlinkDetector.phase d <> detected ->
            feedBlinks d inputs = Return (rs, self') ->
            exists k,
              (k <= length inputs)%nat
              /\ rs = repeat false k ++ repeat true (length inputs - k)
              /\ (BlinkDetector.phase d = waiting -> inputs <> [] ->
                  (1 <= k)%nat)
              /\ (BlinkDetector.isDetected self' = true
                  <-> (k < length inputs)%nat)) as Hgen.
  { clear - Hdone.
    induction inputs as [|input rest IH]; intros d rs self' Hd;
      cbn [feedBlinks].
    - intros [= <- <-]. exists 0%nat. cbn [length].
      split; [lia|]. split; [reflexivity|]. split; [intros _ H; contradiction|].
      unfold BlinkDetector.isDetected.
      destruct (BlinkDetector.phase d); [| |contradiction];
        split; (discriminate || lia).
    - destruct (BlinkDetector.addFrame d input) as [[b d1]|] eqn:E;
        cbn [bind fst snd]; [|discriminate].
      destruct (feedBlinks d1 rest) as [[rs1 d2]|] eqn:E2;
        cbn [bind fst snd]; [|discriminate].
      intros [= <- <-]. cbn [length].
      destruct (addFrame_inv _ _ _ _ E)
        as [(-> & -> & Hp)|[(-> & Hp & Hp' & _)
           |[(-> & Hp & Hp' & _)|(-> & -> & Hp)]]].
      + contradiction.
      + destruct d1 as [p1]. cbn in Hp'. subst p1.
        destruct (Hdone _ _ _ E2) as [-> ->].
        exists 0%nat. split; [lia|]. split; [reflexivity|].
        split; [intros Hw; congruence|].
        split; [lia|reflexivity].
      + destruct (IH d1 rs1 d2) as (k & Hk & -> & _ & Hdet);
          [congruence|exact E2|].
        exists (S k). split; [lia|]. split; [reflexivity|].
        split; [lia|]. rewrite Hdet. lia.
      + destruct (IH d rs1 d2) as (k & Hk & -> & _ & Hdet);
          [exact Hp|exact E2|].
        exists (S k). split; [lia|]. split; [reflexivity|].
        split; [lia|]. rewrite Hdet. lia. }
  intros H. destruct (Hgen inputs (inPhase waiting) rs self') as
    (k & Hk & Hrs & Hfirst & Hdet); [discriminate|exact H|].
  exists k. split; [exact Hk|]. split; [exact Hrs|].
  split; [apply Hfirst; reflexivity|exact Hdet].
Qed.

Lemma blink_results_are_false_then_true_witness :
  exists k,
    feedBlinks (BlinkDetector.reset (inPhase detected))
      [eyeScores 0.1 0.1; eyeScores 0.9 0.9; eyeScores 0.3 0.3;
       eyeScores 0.1 0.1; eyeScores 0.9 0.9; None]
    = Return (repeat false k ++ repeat true (6 - k), inPhase detected)
    /\ k = 3%nat.
Proof.
  destruct (feedBlinks (BlinkDetector.reset (inPhase detected))
              [eyeScores 0.1 0.1; eyeScores 0.9 0.9; eyeScores 0.3 0.3;
               eyeScores 0.1 0.1; eyeScores 0.9 0.9; None])
    as [[rs d]|] eqn:E; [|vm_compute in E; discriminate].
  destruct (blink_results_are_false_then_true _ _ _ _ E) as (k & _ & _ & _ & _).
  exists 3%nat. vm_compute in E. injection E as <- <-. split; reflexivity.
Defined.

(** X9. Hysteresis: a frame in which one eye's score lies between the two
    thresholds (0.2 <= score <= 0.4) changes no phase; it returns true only
    if the detector was already Detected. *)
Theorem scores_between_thresholds_change_nothing self input l r :
  hasScores input l r ->
  (0.2 <= l <= 0.4) \/ (0.2 <= r <= 0.4) ->
  BlinkDetector.addFrame self input
  = Return (BlinkDetector.isDetected self, self).
Proof.
  intros Hs Hband. destruct self as [p]. change {| BlinkDetector.phase := p |}
    with (inPhase p).
  rewrite (addFrame_with_scores p input l r Hs).
  unfold BlinkDetector.isDetected, inPhase. cbn [BlinkDetector.phase].
  destruct p; try reflexivity.
  - replace (Qgtb l BLINK_THRESHOLD && Qgtb r BLINK_THRESHOLD) with false;
      [reflexivity|].
    symmetry. apply andb_false_iff.
    destruct Hband as [[_ H]|[_ H]]; [left|right]; apply Qgtb_false; exact H.
  - replace (Qltb l OPEN_THRESHOLD && Qltb r OPEN_THRESHOLD) with false;
      [reflexivity|].
    symmetry. apply andb_false_iff.
    destruct Hband as [[H _]|[H _]]; [left|right]; apply Qltb_false; exact H.
Qed.

Lemma scores_between_thresholds_change_nothing_witness :
  BlinkDetector.addFrame (inPhase eyes_closed) (eyeScores 0.05 0.3)
  = Return (false, inPhase eyes_closed).
Proof.
  apply (scores_between_thresholds_change_nothing (inPhase eyes_closed)
           (eyeScores 0.05 0.3) 0.05 0.3 (hasScores_eyeScores _ _)).
  right. split; qcompute.
Defined.

(** ** Face selector: errors, blendshapes and order *)

Lemma faceArea_TypeError_iff (face : Landmarks) :
  faceArea face = TypeError <-> (length face <= 454)%nat.
Proof.
  unfold faceArea, at_index, FaceIDX.FOREHEAD, FaceIDX.CHIN,
    FaceIDX.LEFT_CHEEK, FaceIDX.RIGHT_CHEEK.
  destruct (Nat.le_gt_cases (length face) 454) as [Hle|Hgt].
  - split; [intros _; exact Hle|intros _].
    apply (lookup_ge_None_2 face) in Hle. rewrite Hle.
    destruct (face !! 10%nat), (face !! 152%nat), (face !! 234%nat);
      reflexivity.
  - destruct (lookup_lt_is_Some_2 face 10) as [? ->]; [lia|].
    destruct (lookup_lt_is_Some_2 face 152) as [? ->]; [lia|].
    destruct (lookup_lt_is_Some_2 face 234) as [? ->]; [lia|].
    destruct (lookup_lt_is_Some_2 face 454) as [? ->]; [lia|].
    cbn [bind]. split; [discriminate|lia].
Qed.

Lemma scanFaces_TypeError_iff rest :
  forall i bestIndex bestArea,
    scanFaces rest i bestIndex bestArea = TypeError
    <-> Exists (fun face : Landmarks => (length face <= 454)%nat) rest.
Proof.
  induction rest as [|face rest IH]; intros i bi ba; cbn [scanFaces].
  - split; [discriminate|intros H; inversion H].
  - rewrite Exists_cons.
    destruct (faceArea face) as [area|] eqn:E; cbn [bind].
    + assert (~ (length face <= 454)%nat) as Hok.
      { intros H. apply faceArea_TypeError_iff in H. congruence. }
      destruct (Qgtb area ba); rewrite IH; tauto.
    + apply faceArea_TypeError_iff in E. tauto.
Qed.

(** X10. [selectLargestFace] throws exactly when some face of the list has
    too few points to hold the right-cheek landmark (at most 454 points);
    every face is measured, also those that cannot win. *)
Theorem selectLargestFace_throws_iff_some_face_is_short
    (faceLandmarks : list Landmarks) faceBlendshapes :
  selectLargestFace faceLandmarks faceBlendshapes = TypeError
  <-> Exists (fun face : Landmarks => (length face <= 454)%nat) faceLandmarks.
Proof.
  unfold selectLargestFace. destruct faceLandmarks as [|face rest].
  - cbn. split; [discriminate|intros H; inversion H].
  - cbn [length Nat.eqb].
    rewrite <- (scanFaces_TypeError_iff (face :: rest) 0 0 (-1)).
    destruct (scanFaces (face :: rest) 0 0 (-1)); cbn [bind];
      split; (discriminate || reflexivity).
Qed.

(** X11. The blendshapes handed on are those at the selected face's own
    index, wrapped in a one-element list.  Passed to the blink detector
    they throw exactly when the detector is not yet Detected and the
    blendshape list is too short to have an entry at that index; a
    blendshape list as long as the face list never throws. *)
Theorem selected_blendshapes_follow_face_index
    (faceLandmarks : list Landmarks) (shapes : list Classifications)
    selected detector :
  selectLargestFace faceLandmarks (Some shapes) = Return (Some selected) ->
  (faceIndex selected < length faceLandmarks)%nat
  /\ blendshapes selected = Some [shapes !! faceIndex selected]
  /\ (BlinkDetector.addFrame detector (blendshapes selected) = TypeError
      <-> BlinkDetector.phase detector <> detected
          /\ (length shapes <= faceIndex selected)%nat)
  /\ ((length faceLandmarks <= length shapes)%nat ->
      BlinkDetector.addFrame detector (blendshapes selected) <> TypeError).
Proof.
  unfold selectLargestFace. destruct faceLandmarks as [|face rest];
    [discriminate|].
  cbn [length Nat.eqb].
  destruct (scanFaces (face :: rest) 0 0 (-1)) as [[bi ba]|] eqn:E;
    cbn [bind fst]; [|discriminate].
  intros [= <-]. cbn [faceIndex blendshapes].
  assert (bi < length (face :: rest))%nat as Hlt.
  { destruct (scanFaces_index_lt _ _ _ _ _ _ E) as [->|H]; cbn [length] in *; lia. }
  assert (BlinkDetector.addFrame detector (Some [shapes !! bi]) = TypeError
          <-> BlinkDetector.phase detector <> detected
              /\ (length shapes <= bi)%nat) as Hthrow.
  { unfold BlinkDetector.addFrame.
    destruct (shapes !! bi) as [c|] eqn:Ec.
    - apply lookup_lt_Some in Ec.
      split; [|lia].
      destruct (BlinkDetector.phase detector); cbn [bind];
        try discriminate;
        destruct (BlinkDetector.findCategory "eyeBlinkLeft" _);
        try discriminate;
        destruct (BlinkDetector.findCategory "eyeBlinkRight" _);
        try discriminate;
        destruct (_ && _); discriminate.
    - apply lookup_ge_None in Ec.
      destruct (BlinkDetector.phase detector); cbn [bind].
      + split; [intros _; split; [discriminate|exact Ec]|reflexivity].
      + split; [intros _; split; [discriminate|exact Ec]|reflexivity].
      + split; [discriminate|intros [H _]; contradiction]. }
  split; [exact Hlt|]. split; [reflexivity|]. split; [exact Hthrow|].
  intros Hpar Hbad. apply Hthrow in Hbad as [_ Hshort].
  cbn [length] in *. lia.
Qed.

Lemma selected_blendshapes_follow_face_index_witness :
  exists selected,
    selectLargestFace [smallFace; largeFace] (Some []) = Return (Some selected)
    /\ blendshapes selected = Some [None]
    /\ BlinkDetector.addFrame BlinkDetector.new (blendshapes selected)
       = TypeError.
Proof.
  destruct (selectLargestFace [smallFace; largeFace] (Some []))
    as [[selected|]|] eqn:E; try (vm_compute in E; discriminate).
  destruct (selected_blendshapes_follow_face_index _ _ _ BlinkDetector.new E)
    as (_ & Hb & Hthrow & _).
  exists selected. split; [reflexivity|]. split.
  - rewrite Hb. reflexivity.
  - apply Hthrow. split; [discriminate|]. cbn. lia.
Defined.

Lemma selectLargestFace_maximum (faceLandmarks : list Landmarks)
    faceBlendshapes :
  faceLandmarks <> [] ->
  Forall (fun face => is_Some (boundingBoxArea face)) faceLandmarks ->
  exists selected best,
    selectLargestFace faceLandmarks faceBlendshapes = Return (Some selected)
    /\ landmarks selected ∈ faceLandmarks
    /\ boundingBoxArea (landmarks selected) = Some best
    /\ forall face a,
         face ∈ faceLandmarks -> boundingBoxArea face = Some a -> a <= best.
Proof.
  intros Hne Hwf. unfold selectLargestFace.
  destruct faceLandmarks as [|face0 rest] eqn:Efaces; [contradiction|].
  rewrite <- Efaces in *.
  replace (length faceLandmarks =? 0)%nat with false
    by (rewrite Efaces; reflexivity).
  destruct (scanFaces_spec faceLandmarks 0 0%nat (-1) Hwf)
    as (bi & ba & Hscan & _ & Hmax & Hsel).
  rewrite Hscan. cbn [bind fst].
  destruct Hsel as [[-> ->]|(k & face & -> & Hk & Hface & _ & _)].
  - exfalso. rewrite Efaces in Hwf. apply Forall_cons in Hwf as [[a Ha] _].
    pose proof (boundingBoxArea_nonneg _ _ Ha) as Hpos.
    assert (a <= -1) as Hneg.
    { apply (Hmax 0%nat face0 a); [rewrite Efaces; reflexivity|exact Ha]. }
    apply (Qle_not_lt _ _ (Qle_trans _ _ _ Hpos Hneg)). reflexivity.
  - eexists _, ba. split; [reflexivity|]. cbn [landmarks].
    rewrite Nat.add_0_l, (nth_lookup_Some _ _ _ _ Hk).
    split; [apply (list_elem_of_lookup_2 _ _ _ Hk)|]. split; [exact Hface|].
    intros f a Hin Ha. apply list_elem_of_lookup_1 in Hin as [j Hj].
    exact (Hmax j f a Hj Ha).
Qed.

(** X12. The area of the selected face does not depend on the order in
    which the faces are listed (only its index does). *)
Theorem selected_area_is_order_independent
    (faces1 faces2 : list Landmarks) shapes1 shapes2 :
  faces1 ≡ₚ faces2 ->
  faces1 <> [] ->
  Forall (fun face => is_Some (boundingBoxArea face)) faces1 ->
  exists selected1 selected2 area1 area2,
    selectLargestFace faces1 shapes1 = Return (Some selected1)
    /\ selectLargestFace faces2 shapes2 = Return (Some selected2)
    /\ boundingBoxArea (landmarks selected1) = Some area1
    /\ boundingBoxArea (landmarks selected2) = Some area2
    /\ area1 == area2.
Proof.
  intros Hperm Hne Hwf.
  assert (faces2 <> []) as Hne2.
  { intros ->. apply Permutation_nil_r in Hperm. contradiction. }
  assert (Forall (fun face => is_Some (boundingBoxArea face)) faces2) as Hwf2.
  { rewrite <- Hperm. exact Hwf. }
  destruct (selectLargestFace_maximum faces1 shapes1 Hne Hwf)
    as (s1 & a1 & Hs1 & Hin1 & Ha1 & Hmax1).
  destruct (selectLargestFace_maximum faces2 shapes2 Hne2 Hwf2)
    as (s2 & a2 & Hs2 & Hin2 & Ha2 & Hmax2).
  exists s1, s2, a1, a2. repeat (split; [assumption|]).
  apply Qle_antisym.
  - apply (Hmax2 (landmarks s1)); [rewrite <- Hperm; exact Hin1|exact Ha1].
  - apply (Hmax1 (landmarks s2)); [rewrite Hperm; exact Hin2|exact Ha2].
Qed.

Lemma selected_area_is_order_independent_witness :
  exists selected1 selected2,
    selectLargestFace [smallFace; largeFace] None = Return (Some selected1)
    /\ selectLargestFace [largeFace; smallFace] None = Return (Some selected2)
    /\ faceIndex selected1 = 1%nat /\ faceIndex selected2 = 0%nat
    /\ landmarks selected1 = landmarks selected2.
Proof.
  destruct (selected_area_is_order_independent
              [smallFace; largeFace] [largeFace; smallFace] None None)
    as (s1 & s2 & a1 & a2 & H1 & H2 & _).
  - apply Permutation_swap.
  - discriminate.
  - repeat (apply List.Forall_cons; [eexists; vm_compute; reflexivity|]).
    apply List.Forall_nil.
  - exists s1, s2. split; [exact H1|]. split; [exact H2|].
    vm_compute in H1. vm_compute in H2.
    injection H1 as <-. injection H2 as <-. repeat split.
Defined.

(** ** Pose extractor: geometry *)












(** ** Challenge orchestrator: invariants of a session *)

Ltac hook_cbn_in H :=
  cbn [state motionValidator blinkDetector centerFrames stepStartTime
       currentStepRef isRunningRef hasAdvanced timers
       overallStatus currentStepIndex stepStatus feedbackMessage
       motionProgress isFaceDetected timeRemaining
       setState whenActive set_centerFrames set_motionValidator
       set_blinkDetector with_isFaceDetected with_feedbackMessage
       with_motionProgress with_timeRemaining failStep fst snd] in H.

(** Case analysis on the tests met along one run of the loop. *)
Ltac break_in H :=
  match type of H with
  | context [match ?c with _ => _ end] =>
      lazymatch c with
      | context [match _ with _ => _ end] => fail
      | _ => destruct c eqn:?
      end
  end.

Ltac loop_cases H :=
  unfold detectLoop, centerStep, headStep, blinkStep, advanceStep, bind in H;
  cbv zeta in H; hook_cbn_in H;
  repeat (break_in H; hook_cbn_in H);
  try discriminate H;
  apply (f_equal (fun r => match r with Return a => Some a
                                   | TypeError => None end)) in H;
  apply (inj Some) in H; subst.












(** A frame or a pause timer, as opposed to the commands of the user. *)
Definition isTick (ev : Event) : Prop :=
  match ev with
  | EvFrame _ _ | EvTimer _ => True
  | EvStart _ | EvReset => False
  end.

Lemma tick_not_running steps ev h h' :
  isTick ev ->
  isRunningRef h = false ->
  step steps ev h = Return h' ->
  overallStatus (state h') = overallStatus (state h)
  /\ isRunningRef h' = false.
Proof.
  intros Htick Hrun. destruct ev as [now| |now frame|now];
    try contradiction; cbn [step].
  - intros H. apply (detectLoop_not_running _ _ _ _ _ Hrun) in H
      as (Ho & _ & _ & Hr & _). auto.
  - destruct (timers h) as [|n rest]; [intros [= <-]; auto|].
    unfold advanceTimeout. destruct (getInstructionMessage _); cbn [bind];
      [|discriminate].
    intros [= <-]. hook_cbn. auto.
Qed.

(** X18. A verdict is final: once a reachable session is Failed or
    Success, no frame and no pause timer changes the status or sets the
    session running again; only [startChallenge] or [reset] do. *)
Theorem verdict_is_final steps before h after h' :
  run steps before initialHook = Return h ->
  overallStatus (state h) = failed \/ overallStatus (state h) = success ->
  Forall isTick after ->
  run steps after h = Return h' ->
  overallStatus (state h') = overallStatus (state h)
  /\ isRunningRef h' = false.
Proof.
  intros Hreach Hverdict.
  destruct (consistent_reachable steps before _ _ consistent_initial Hreach)
    as [Hrun _].
  assert (isRunningRef h = false) as Hoff.
  { destruct (isRunningRef h); [|reflexivity].
    destruct Hrun as [Hrun _]. specialize (Hrun eq_refl).
    destruct Hverdict; congruence. }
  clear Hreach Hrun Hverdict. revert h Hoff.
  induction after as [|ev after IH]; intros h Hoff Hticks; cbn [run].
  - intros [= <-]. auto.
  - apply Forall_cons in Hticks as [Htick Hticks].
    destruct (step steps ev h) as [h1|] eqn:E; cbn [bind]; [|discriminate].
    destruct (tick_not_running _ _ _ _ Htick Hoff E) as [Ho Hr].
    intros H. destruct (IH h1 Hr Hticks H) as [Ho' Hr'].
    split; [congruence|exact Hr'].
Qed.

Lemma verdict_is_final_witness :
  exists h h',
    run sampleSteps
      [EvStart 1000; EvFrame 7000 (Detection [frontalMesh] None)] initialHook
    = Return h
    /\ overallStatus (state h) = failed
    /\ run sampleSteps (frontalTicks 15 ++ [EvTimer 9000]) h = Return h'
    /\ overallStatus (state h') = failed.
Proof.
  destruct (run sampleSteps
              [EvStart 1000; EvFrame 7000 (Detection [frontalMesh] None)]
              initialHook) as [h|] eqn:E; [|vm_compute in E; discriminate].
  assert (overallStatus (state h) = failed) as Hf.
  { vm_compute in E. injection E as <-. reflexivity. }
  destruct (run sampleSteps (frontalTicks 15 ++ [EvTimer 9000]) h)
    as [h'|] eqn:E'.
  - assert (Forall isTick (frontalTicks 15 ++ [EvTimer 9000])) as Hticks.
    { repeat (apply List.Forall_cons; [exact I|]). apply List.Forall_nil. }
    destruct (verdict_is_final _ _ _ _ _ E (or_introl Hf) Hticks E')
      as [Ho _].
    exists h, h'. repeat split; congruence.
  - exfalso. vm_compute in E. injection E as <-. vm_compute in E'.
    discriminate.
Defined.

(** The values shown to the user are within their ranges. *)
Definition displayable (st : LivenessState) : Prop :=
  0 <= motionProgress st <= 1 /\ 0 <= timeRemaining st.

Lemma holdProgress_range n : 0 <= holdProgress n <= 1.
Proof.
  unfold holdProgress. split; [|apply Q.le_min_l].
  apply Q.min_glb; [discriminate|].
  apply Qle_shift_div_l; [reflexivity|]. rewrite Qmult_0_l.
  change 0 with (inject_Z 0). rewrite <- Zle_Qle. lia.
Qed.

Lemma addFrame_progress_range self pose direction r self' :
  MotionValidator.addFrame self pose direction = Return (r, self') ->
  0 <= progress r <= 1.
Proof.
  intros H. apply addFrame_judged in H as [_ Hj].
  destruct Hj as [[-> _]|[(-> & _)|(-> & _)]]; cbn [progress notYet rejected scored].
  - split; discriminate.
  - split; discriminate.
  - apply Qclamp_bounds.
Qed.

Lemma detectLoop_displayable steps now frame h h' :
  displayable (state h) ->
  detectLoop steps now frame h = Return h' ->
  displayable (state h').
Proof.
  intros [Hp Ht] H. unfold displayable.
  destruct h as [[os idx ss msg mp fd tr] mv bd cf t0 cur running adv tms].
  hook_cbn_in Hp. hook_cbn_in Ht.
  loop_cases H; unfold whenActive; hook_cbn;
    destruct ss; hook_cbn;
    repeat match goal with
           | p : (MotionResult * MotionValidator.t)%type |- _ => destruct p
           end;
    cbn [fst snd];
    repeat match goal with
           | E : MotionValidator.addFrame _ _ _ = Return (?r, _) |- _ =>
               apply addFrame_progress_range in E
           end;
    (split; [first [ exact Hp | assumption | apply (holdProgress_range (S cf))
                   | split; discriminate ]
            | first [ exact Ht | apply Q.le_max_l ] ]).
Qed.

Lemma displayable_step steps ev h h' :
  displayable (state h) -> step steps ev h = Return h' ->
  displayable (state h').
Proof.
  intros Hd. destruct ev as [now| |now frame|now]; cbn [step].
  - unfold startChallenge. destruct (getInstructionMessage _); cbn [bind];
      [|discriminate].
    intros [= <-]. split; [split|]; discriminate.
  - intros [= <-]. split; [split|]; discriminate.
  - apply detectLoop_displayable. exact Hd.
  - destruct (timers h) as [|n rest]; [intros [= <-]; exact Hd|].
    unfold advanceTimeout. destruct (getInstructionMessage _); cbn [bind];
      [|discriminate].
    intros [= <-]. split; [split|]; discriminate.
Qed.

(** X19. On every reachable hook the displayed progress lies in [0,1] and
    the displayed time remaining is not negative. *)
Theorem displayed_values_stay_in_range steps evs h :
  run steps evs initialHook = Return h ->
  0 <= motionProgress (state h) <= 1 /\ 0 <= timeRemaining (state h).
Proof.
  assert (displayable (state initialHook)) as H0
    by (split; [split|]; discriminate).
  revert H0. generalize initialHook.
  induction evs as [|ev evs IH]; intros h0 H0; cbn [run].
  - intros [= <-]. exact H0.
  - destruct (step steps ev h0) as [h1|] eqn:E; cbn [bind]; [|discriminate].
    apply IH. exact (displayable_step _ _ _ _ H0 E).
Qed.

Lemma displayed_values_stay_in_range_witness :
  exists h,
    run sampleSteps (EvStart 1000 :: frontalTicks 7) initialHook = Return h
    /\ motionProgress (state h) == 7 # 15
    /\ 0 <= motionProgress (state h) <= 1.
Proof.
  destruct (run sampleSteps (EvStart 1000 :: frontalTicks 7) initialHook)
    as [h|] eqn:E; [|vm_compute in E; discriminate].
  destruct (displayed_values_stay_in_range _ _ _ E) as [Hp _].
  exists h. split; [reflexivity|]. split; [|exact Hp].
  vm_compute in E. injection E as <-. reflexivity.
Defined.

(** ** Challenge orchestrator: head and blink steps, frames without a face *)

(** The hook handed to the step branches: the face flag set, the time
    remaining refreshed if the step is active. *)
Definition afterPrelude (now : Z) (h : Hook) : Hook :=
  setState
    (whenActive
       (with_timeRemaining
          (Qmax 0 (inject_Z (STEP_TIMEOUT_MS - (now - stepStartTime h))
                   / 1000))))
    (setState (with_isFaceDetected true) h).

Lemma detectLoop_dispatch steps h now faceLandmarks faceBlendshapes selected pose :
  isRunningRef h = true ->
  (now - stepStartTime h <= 5000)%Z \/ hasAdvanced h = true ->
  selectLargestFace faceLandmarks faceBlendshapes = Return (Some selected) ->
  extractHeadPose (landmarks selected) = Return pose ->
  detectLoop steps now (Detection faceLandmarks faceBlendshapes) h
  = match steps !! currentStepRef h with
    | None => TypeError
    | Some center => Return (centerStep steps pose (afterPrelude now h))
    | Some (head direction) =>
        headStep steps (head direction) direction pose (afterPrelude now h)
    | Some blink => blinkStep steps (blendshapes selected) (afterPrelude now h)
    end.
Proof.
  intros Hrun Htime Hsel Hpose. unfold detectLoop.
  rewrite Hsel. cbn [bind].
  cbn [setState isRunningRef hasAdvanced stepStartTime currentStepRef].
  rewrite Hrun.
  replace ((STEP_TIMEOUT_MS <? now - stepStartTime h)%Z && negb (hasAdvanced h))
    with false.
  - rewrite Hpose. reflexivity.
  - symmetry. destruct Htime as [Hle| ->].
    + apply Z.ltb_ge in Hle. unfold STEP_TIMEOUT_MS. rewrite Hle. reflexivity.
    + apply andb_false_r.
Qed.

Lemma afterPrelude_refs now h :
  motionValidator (afterPrelude now h) = motionValidator h
  /\ blinkDetector (afterPrelude now h) = blinkDetector h
  /\ centerFrames (afterPrelude now h) = centerFrames h
  /\ stepStartTime (afterPrelude now h) = stepStartTime h
  /\ currentStepRef (afterPrelude now h) = currentStepRef h
  /\ isRunningRef (afterPrelude now h) = isRunningRef h
  /\ hasAdvanced (afterPrelude now h) = hasAdvanced h
  /\ timers (afterPrelude now h) = timers h
  /\ overallStatus (state (afterPrelude now h)) = overallStatus (state h)
  /\ stepStatus (state (afterPrelude now h)) = stepStatus (state h).
Proof.
  unfold afterPrelude. hook_cbn. unfold whenActive. hook_cbn.
  destruct (stepStatus (state h)) eqn:E; hook_cbn; rewrite ?E;
    repeat split; reflexivity.
Qed.


(** A session in its second step (turn left) with five slow poses seen,
    already advanced and waiting for the pause timer. *)
Definition pausedInHeadStep : Hook :=
  {| state :=
       {| overallStatus := running; currentStepIndex := 1;
          stepStatus := step_success; feedbackMessage := "✓ Step complete!";
          motionProgress := 1; isFaceDetected := true; timeRemaining := 3 |};
     motionValidator := validatorWith slowLeft5;
     blinkDetector := BlinkDetector.new;
     centerFrames := 0;
     stepStartTime := 1000;
     currentStepRef := 1;
     isRunningRef := true;
     hasAdvanced := true;
     timers := [2%nat] |}.

(** A face turned far to the left: yaw 0.35. *)
Definition turnedMesh : Landmarks :=
  mesh478 (landmarkAt 0.57 0.4) (landmarkAt 0.4 0.4) (landmarkAt 0.6 0.4)
          (landmarkAt 0.5 0.8) (landmarkAt 0.5 0.2)
          (landmarkAt 0.3 0.5) (landmarkAt 0.7 0.5).


(** What [advanceStep] does to a hook whose step has not advanced. *)
Lemma advanceStep_fresh steps h :
  hasAdvanced h = false ->
  let h' := advanceStep steps h in
  hasAdvanced h' = true
  /\ stepStatus (state h') = step_success
  /\ motionProgress (state h') = 1
  /\ currentStepRef h' = currentStepRef h
  /\ ((currentStepRef h + 1 < length steps)%nat ->
      overallStatus (state h') = overallStatus (state h)
      /\ isRunningRef h' = isRunningRef h
      /\ timers h' = timers h ++ [(currentStepRef h + 1)%nat])
  /\ ((length steps <= currentStepRef h + 1)%nat ->
      overallStatus (state h') = success
      /\ isRunningRef h' = false
      /\ timers h' = timers h
      /\ feedbackMessage (state h') = "Liveness Confirmed ✅").
Proof.
  intros Hadv. unfold advanceStep. rewrite Hadv.
  destruct (Nat.leb_spec (length steps) (currentStepRef h + 1)) as [Hle|Hlt];
    hook_cbn; repeat split; try reflexivity;
    intros; repeat split; try reflexivity; lia.
Qed.




(** X22. In a blink step a face that comes without blendshapes is not
    shown to the blink detector: the tick changes nothing but the face
    flag and, while the step is active, the time remaining. *)
Theorem blink_step_waits_without_blendshapes steps h now faceLandmarks
    selected pose :
  isRunningRef h = true ->
  steps !! currentStepRef h = Some blink ->
  (now - stepStartTime h <= 5000)%Z \/ hasAdvanced h = true ->
  selectLargestFace faceLandmarks None = Return (Some selected) ->
  extractHeadPose (landmarks selected) = Return pose ->
  exists h',
    detectLoop steps now (Detection faceLandmarks None) h = Return h'
    /\ blinkDetector h' = blinkDetector h
    /\ motionValidator h' = motionValidator h
    /\ hasAdvanced h' = hasAdvanced h
    /\ timers h' = timers h
    /\ isRunningRef h' = true
    /\ overallStatus (state h') = overallStatus (state h)
    /\ stepStatus (state h') = stepStatus (state h)
    /\ feedbackMessage (state h') = feedbackMessage (state h)
    /\ motionProgress (state h') = motionProgress (state h)
    /\ isFaceDetected (state h') = true.
Proof.
  intros Hrun Hstep Htime Hsel Hpose.
  rewrite (detectLoop_dispatch _ _ _ _ _ _ _ Hrun Htime Hsel Hpose), Hstep.
  assert (blendshapes selected = None) as ->.
  { unfold selectLargestFace in Hsel.
    destruct (length faceLandmarks =? 0)%nat; [discriminate|].
    destruct (scanFaces _ _ _ _); cbn [bind] in Hsel; [|discriminate].
    apply (f_equal (fun r => match r with Return (Some s) => blendshapes s
                                     | _ => None end)) in Hsel.
    symmetry. exact Hsel. }
  cbn [blinkStep]. eexists. split; [reflexivity|].
  unfold afterPrelude. hook_cbn. unfold whenActive. hook_cbn.
  destruct (stepStatus (state h)) eqn:Es; hook_cbn; rewrite ?Es;
    repeat split; try reflexivity; exact Hrun.
Qed.

(** A session in its third step (blink), active. *)
Definition waitingForBlink : Hook :=
  {| state :=
       {| overallStatus := running; currentStepIndex := 2;
          stepStatus := step_active;
          feedbackMessage := "Please blink naturally 👁️";
          motionProgress := 0; isFaceDetected := false; timeRemaining := 5 |};
     motionValidator := MotionValidator.new;
     blinkDetector := inPhase eyes_closed;
     centerFrames := 0;
     stepStartTime := 1000;
     currentStepRef := 2;
     isRunningRef := true;
     hasAdvanced := false;
     timers := [] |}.

Lemma blink_step_waits_without_blendshapes_witness :
  exists h',
    detectLoop sampleSteps 3000 (Detection [frontalMesh] None) waitingForBlink
    = Return h'
    /\ blinkDetector h' = inPhase eyes_closed
    /\ stepStatus (state h') = step_active.
Proof.
  destruct (extractHeadPose frontalMesh) as [pose|] eqn:Ep;
    [|vm_compute in Ep; discriminate].
  destruct (blink_step_waits_without_blendshapes sampleSteps waitingForBlink
              3000 [frontalMesh]
              {| landmarks := frontalMesh; blendshapes := None; faceIndex := 0 |}
              pose)
    as (h' & Hret & Hbd & _ & _ & _ & _ & _ & Hs & _);
    try reflexivity.
  - left. vm_compute. discriminate.
  - exact Ep.
  - exists h'. split; [exact Hret|]. split; [exact Hbd|exact Hs].
Defined.

(** X23. A completed blink passes the blink step on that tick: when the
    detector returns true for the selected face's blendshapes, the step
    becomes Success with full progress and is marked advanced; on the last
    step the session becomes Success and stops, otherwise one pause timer
    is scheduled for the next index. *)
Theorem completed_blink_advances_step steps h now faceLandmarks
    faceBlendshapes selected pose detector' :
  isRunningRef h = true ->
  hasAdvanced h = false ->
  steps !! currentStepRef h = Some blink ->
  (now - stepStartTime h <= 5000)%Z ->
  selectLargestFace faceLandmarks faceBlendshapes = Return (Some selected) ->
  extractHeadPose (landmarks selected) = Return pose ->
  blendshapes selected <> None ->
  BlinkDetector.addFrame (blinkDetector h) (blendshapes selected)
  = Return (true, detector') ->
  exists h',
    detectLoop steps now (Detection faceLandmarks faceBlendshapes) h
    = Return h'
    /\ blinkDetector h' = detector'
    /\ hasAdvanced h' = true
    /\ stepStatus (state h') = step_success
    /\ motionProgress (state h') = 1
    /\ currentStepRef h' = currentStepRef h
    /\ ((currentStepRef h + 1 < length steps)%nat ->
        overallStatus (state h') = overallStatus (state h)
        /\ isRunningRef h' = true
        /\ timers h' = timers h ++ [(currentStepRef h + 1)%nat])
    /\ ((length steps <= currentStepRef h + 1)%nat ->
        overallStatus (state h') = success
        /\ isRunningRef h' = false
        /\ timers h' = timers h).
Proof.
  intros Hrun Hadv Hstep Htime Hsel Hpose Hsome Hblink.
  rewrite (detectLoop_dispatch _ _ _ _ _ _ _ Hrun (or_introl Htime) Hsel Hpose),
    Hstep.
  unfold blinkStep. destruct (blendshapes selected) as [bs|] eqn:Eb;
    [|contradiction].
  destruct (afterPrelude_refs now h) as (_ & Hbd & _).
  rewrite Hbd, Hblink. cbn [bind fst snd].
  eexists. split; [reflexivity|].
  unfold advanceStep, afterPrelude. hook_cbn. rewrite Hadv.
  destruct (Nat.leb_spec (length steps) (currentStepRef h + 1)) as [Hle|Hlt];
    hook_cbn; unfold whenActive; hook_cbn;
    destruct (stepStatus (state h)) eqn:Es; hook_cbn; rewrite ?Es; hook_cbn;
    repeat split; try reflexivity; try assumption;
    intros; repeat split; try reflexivity; try assumption; lia.
Qed.

Lemma completed_blink_advances_step_witness :
  exists h',
    detectLoop sampleSteps 3000
      (Detection [frontalMesh]
         (Some [{| categories :=
                     [ {| categoryName := "eyeBlinkLeft"; score := 0.1 |};
                       {| categoryName := "eyeBlinkRight"; score := 0.05 |} ]
                |}]))
      waitingForBlink
    = Return h'
    /\ blinkDetector h' = inPhase detected
    /\ stepStatus (state h') = step_success
    /\ timers h' = [3%nat].
Proof.
  destruct (extractHeadPose frontalMesh) as [pose|] eqn:Ep;
    [|vm_compute in Ep; discriminate].
  destruct (completed_blink_advances_step sampleSteps waitingForBlink 3000
              [frontalMesh]
              (Some [{| categories :=
                          [ {| categoryName := "eyeBlinkLeft"; score := 0.1 |};
                            {| categoryName := "eyeBlinkRight";
                               score := 0.05 |} ] |}])
              {| landmarks := frontalMesh;
                 blendshapes :=
                   Some [Some {| categories :=
                          [ {| categoryName := "eyeBlinkLeft"; score := 0.1 |};
                            {| categoryName := "eyeBlinkRight";
                               score := 0.05 |} ] |}];
                 faceIndex := 0 |}
              pose (inPhase detected))
    as (h' & Hret & Hbd & _ & Hs & _ & _ & Hmid & _);
    try reflexivity.
  - vm_compute. discriminate.
  - exact Ep.
  - discriminate.
  - exists h'. split; [exact Hret|]. split; [exact Hbd|]. split; [exact Hs|].
    destruct Hmid as (_ & _ & Ht); [cbn; lia|]. exact Ht.
Defined.

(** X24. A frame without any face leaves every ref as it is (the hold
    counter is not reset, the validators keep their history, the step
    timer is not restarted) and on the observable state only clears the
    face flag and, while the session runs an active step, shows the
    no-face message; the displayed time remaining is not refreshed. *)
Theorem frame_without_face_keeps_progress steps now faceBlendshapes h :
  exists h',
    detectLoop steps now (Detection [] faceBlendshapes) h = Return h'
    /\ (motionValidator h' = motionValidator h
        /\ blinkDetector h' = blinkDetector h
        /\ centerFrames h' = centerFrames h
        /\ stepStartTime h' = stepStartTime h
        /\ currentStepRef h' = currentStepRef h
        /\ isRunningRef h' = isRunningRef h
        /\ hasAdvanced h' = hasAdvanced h
        /\ timers h' = timers h)
    /\ (overallStatus (state h') = overallStatus (state h)
        /\ currentStepIndex (state h') = currentStepIndex (state h)
        /\ stepStatus (state h') = stepStatus (state h)
        /\ motionProgress (state h') = motionProgress (state h)
        /\ timeRemaining (state h') = timeRemaining (state h))
    /\ isFaceDetected (state h') = false
    /\ feedbackMessage (state h')
       = (if isRunningRef h
          then match stepStatus (state h) with
               | step_active => "No face detected — look at the camera"
               | _ => feedbackMessage (state h)
               end
          else feedbackMessage (state h)).
Proof.
  eexists. split; [reflexivity|]. hook_cbn.
  split; [repeat split|].
  destruct (isRunningRef h); [|repeat split].
  destruct (stepStatus (state h)) eqn:Es; hook_cbn; rewrite ?Es;
    repeat split.
Qed.

Lemma selectLargestFace_None (faceLandmarks : list Landmarks) faceBlendshapes :
  selectLargestFace faceLandmarks faceBlendshapes = Return None ->
  faceLandmarks = [].
Proof.
  unfold selectLargestFace. destruct faceLandmarks as [|face rest];
    [reflexivity|].
  cbn [length Nat.eqb]. destruct (scanFaces _ _ _ _); cbn [bind]; discriminate.
Qed.

Lemma selectLargestFace_Some (faceLandmarks : list Landmarks) faceBlendshapes
    selected :
  selectLargestFace faceLandmarks faceBlendshapes = Return (Some selected) ->
  faceLandmarks <> [].
Proof. intros H ->. discriminate H. Qed.

(** X25. After every processed detection the face flag tells whether the
    frame held a face: it is set exactly when the list of faces was not
    empty, on every path of the loop (timeout, rejection and step advance
    included). *)
Theorem face_flag_follows_last_detection steps now
    (faceLandmarks : list Landmarks) faceBlendshapes h h' :
  detectLoop steps now (Detection faceLandmarks faceBlendshapes) h
  = Return h' ->
  isFaceDetected (state h')
  = match faceLandmarks with [] => false | _ :: _ => true end.
Proof.
  intros H.
  destruct h as [[os idx ss msg mp fd tr] mv bd cf t0 cur running adv tms].
  loop_cases H; unfold whenActive; hook_cbn;
    repeat match goal with
           | E : selectLargestFace _ _ = Return None |- _ =>
               apply selectLargestFace_None in E; subst
           | E : selectLargestFace _ _ = Return (Some _) |- _ =>
               apply selectLargestFace_Some in E
           end;
    destruct ss; hook_cbn;
    try reflexivity;
    (destruct faceLandmarks; [contradiction|reflexivity]).
Qed.

Lemma face_flag_follows_last_detection_witness :
  exists h',
    detectLoop sampleSteps 9000 (Detection [turnedMesh] None) pausedInHeadStep
    = Return h'
    /\ overallStatus (state h') = failed
    /\ isFaceDetected (state h') = true.
Proof.
  destruct (detectLoop sampleSteps 9000 (Detection [turnedMesh] None)
              pausedInHeadStep) as [h'|] eqn:E;
    [|vm_compute in E; discriminate].
  exists h'. split; [reflexivity|]. split.
  - vm_compute in E. injection E as <-. reflexivity.
  - exact (face_flag_follows_last_detection _ _ _ _ _ _ E).
Defined.

(** X26. [reset] and [startChallenge] do not cancel a pending pause timer:
    when it fires in the restarted session it moves that session to the
    step index it was scheduled for, active, with the step timer
    restarted, without the steps before it having been passed. *)
Theorem pending_timer_survives_restart steps h now later n rest first target :
  timers h = n :: rest ->
  steps !! 0%nat = Some first ->
  steps !! n = Some target ->
  exists h',
    run steps [EvReset; EvStart now; EvTimer later] h = Return h'
    /\ overallStatus (state h') = running
    /\ isRunningRef h' = true
    /\ currentStepRef h' = n
    /\ currentStepIndex (state h') = n
    /\ stepStatus (state h') = step_active
    /\ feedbackMessage (state h') = instructionMessage target
    /\ stepStartTime h' = later
    /\ timers h' = rest.
Proof.
  intros Ht Hfirst Htarget. cbn [run step bind].
  unfold startChallenge. cbn [reset timers]. rewrite Hfirst.
  cbn [getInstructionMessage bind timers]. rewrite Ht.
  unfold advanceTimeout. rewrite Htarget. cbn [getInstructionMessage bind].
  eexists. split; [reflexivity|]. hook_cbn. repeat split.
Qed.

Lemma pending_timer_survives_restart_witness :
  exists h',
    run sampleSteps [EvReset; EvStart 5000; EvTimer 5100] pausedInHeadStep
    = Return h'
    /\ overallStatus (state h') = running
    /\ currentStepRef h' = 2%nat
    /\ feedbackMessage (state h') = "Please blink naturally 👁️".
Proof.
  destruct (pending_timer_survives_restart sampleSteps pausedInHeadStep
              5000 5100 2%nat [] center blink)
    as (h' & Hrun & Ho & _ & Hc & _ & _ & Hm & _); try reflexivity.
  exists h'. repeat split; assumption.
Defined.

(** ** Challenge orchestrator: the loop on well-formed frames *)





(** ** Challenge sequence *)

(** X28. Whatever order the shuffle produces (any rearrangement of the
    four directions), the generated sequence has seven steps: the center
    step, then three head steps with three different directions, each
    followed by a blink step; starting a challenge on it never throws. *)
Theorem generated_sequence_shape shuffled :
  shuffled ≡ₚ directions ->
  exists d1 d2 d3,
    generateChallengeSequence shuffled
    = [center; head d1; blink; head d2; blink; head d3; blink]
    /\ take 3 shuffled = [d1; d2; d3]
    /\ NoDup [d1; d2; d3]
    /\ forall now h, exists h',
         startChallenge (generateChallengeSequence shuffled) now h = Return h'.
Proof.
  intros Hperm.
  assert (NoDup shuffled) as Hnd.
  { rewrite Hperm. unfold directions.
    repeat (apply NoDup_cons; split;
            [intros Hin; repeat (apply elem_of_cons in Hin as [Hin|Hin];
                                 [discriminate|]);
             inversion Hin|]).
    apply NoDup_nil_2. }
  pose proof (Permutation_length Hperm) as Hlen. cbn in Hlen.
  destruct shuffled as [|d1 [|d2 [|d3 [|d4 [|]]]]]; try discriminate.
  exists d1, d2, d3. split; [reflexivity|]. split; [reflexivity|]. split.
  - change [d1; d2; d3; d4] with ([d1; d2; d3] ++ [d4]) in Hnd.
    apply NoDup_app in Hnd as [Hnd _]. exact Hnd.
  - intros now h. eexists. reflexivity.
Qed.

Lemma generated_sequence_shape_witness :
  generateChallengeSequence [lookUp; turnLeft; lookDown; turnRight]
  = [center; head lookUp; blink; head turnLeft; blink; head lookDown; blink].
Proof.
  destruct (generated_sequence_shape [lookUp; turnLeft; lookDown; turnRight])
    as (d1 & d2 & d3 & Hseq & Hpick & _).
  - unfold directions.
    apply (Permutation_trans (l' := [turnLeft; lookUp; lookDown; turnRight]));
      [apply Permutation_swap|].
    apply Permutation_skip.
    apply (Permutation_trans (l' := [lookUp; turnRight; lookDown]));
      [apply Permutation_skip, Permutation_swap|apply Permutation_swap].
  - injection Hpick as <- <- <-. exact Hseq.
Defined.

(** ** Shared landmarker *)

(** The landmarker is a singleton. *)
Definition singleton (m : Mediapipe.t) : Prop :=
  (forall p, Mediapipe.promises m !! p = Some Mediapipe.Pending ->
             Mediapipe.initPromise m = Some p
             /\ Mediapipe.faceLandmarker m = None)
  /\ (forall p, Mediapipe.promises m !! p = Some Mediapipe.Fulfilled ->
                Mediapipe.faceLandmarker m = Some p /\ p ∉ Mediapipe.closed m
                \/ Mediapipe.faceLandmarker m <> Some p /\ p ∈ Mediapipe.closed m)
  /\ (forall l, Mediapipe.faceLandmarker m = Some l ->
                Mediapipe.initPromise m = Some l
                /\ Mediapipe.promises m !! l = Some Mediapipe.Fulfilled)
  /\ (forall p, Mediapipe.initPromise m = Some p ->
                (p < length (Mediapipe.promises m))%nat)
  /\ (forall l, l ∈ Mediapipe.closed m ->
                Mediapipe.promises m !! l = Some Mediapipe.Fulfilled).

Lemma singleton_initial : singleton Mediapipe.initial.
Proof.
  unfold singleton, Mediapipe.initial. cbn.
  repeat split; intros; try discriminate;
    try (rewrite lookup_nil in *; discriminate).
  match goal with H : _ ∈ [] |- _ => inversion H end.
Qed.

Lemma singleton_step ev m : singleton m -> singleton (Mediapipe.step ev m).
Proof.
  intros (HA & HB & HC & HD & HE). destruct ev as [|q|q|]; cbn [Mediapipe.step].
  - unfold Mediapipe.getOrCreateFaceLandmarker.
    destruct (Mediapipe.faceLandmarker m) as [l|] eqn:El;
      [cbn [snd]; unfold singleton; rewrite El; auto|].
    destruct (Mediapipe.initPromise m) as [p0|] eqn:Ep;
      [cbn [snd]; unfold singleton; rewrite El, Ep; auto|].
    cbn [snd]. unfold singleton.
    cbn [Mediapipe.faceLandmarker Mediapipe.initPromise Mediapipe.promises
         Mediapipe.closed].
    split; [|split; [|split; [|split]]].
    + intros p Hp. split; [|reflexivity].
      destruct (Nat.lt_ge_cases p (length (Mediapipe.promises m))) as [Hlt|Hge].
      * rewrite lookup_app_l in Hp by exact Hlt.
        destruct (HA p Hp) as [Hcontra _]. discriminate.
      * apply lookup_lt_Some in Hp. rewrite length_app in Hp. cbn in Hp.
        f_equal. lia.
    + intros p Hp.
      destruct (Nat.lt_ge_cases p (length (Mediapipe.promises m))) as [Hlt|Hge].
      * rewrite lookup_app_l in Hp by exact Hlt. apply HB, Hp.
      * rewrite lookup_app_r in Hp by exact Hge.
        destruct (p - length (Mediapipe.promises m))%nat as [|k];
          cbn in Hp; discriminate.
    + intros l Hl. discriminate.
    + intros p Hp. apply (inj Some) in Hp as <-. rewrite length_app. cbn. lia.
    + intros l Hl. apply HE in Hl. apply lookup_app_l_Some. exact Hl.
  - unfold Mediapipe.fulfil.
    destruct (Mediapipe.promises m !! q) as [[| |]|] eqn:Eq;
      try (unfold singleton; auto).
    destruct (HA q Eq) as [Hinit Hnone].
    pose proof (lookup_lt_Some _ _ _ Eq) as Hq.
    unfold singleton.
    cbn [Mediapipe.faceLandmarker Mediapipe.initPromise Mediapipe.promises
         Mediapipe.closed].
    split; [|split; [|split; [|split]]].
    + intros p Hp. exfalso. destruct (decide (p = q)) as [->|Hne].
      * rewrite list_lookup_insert_eq in Hp by exact Hq. discriminate.
      * rewrite list_lookup_insert_ne in Hp by congruence.
        destruct (HA p Hp) as [Hp' _]. congruence.
    + intros p Hp. destruct (decide (p = q)) as [->|Hne].
      * left. split; [reflexivity|]. intros Hin. apply HE in Hin. congruence.
      * rewrite list_lookup_insert_ne in Hp by congruence.
        right. split; [congruence|].
        destruct (HB p Hp) as [[Hcur _]|[_ Hin]]; [congruence|exact Hin].
    + intros l Hl. apply (inj Some) in Hl as <-. split; [exact Hinit|].
      apply list_lookup_insert_eq. exact Hq.
    + intros p Hp. rewrite length_insert. apply HD, Hp.
    + intros l Hl. apply HE in Hl.
      rewrite list_lookup_insert_ne; [exact Hl|]. congruence.
  - unfold Mediapipe.reject.
    destruct (Mediapipe.promises m !! q) as [[| |]|] eqn:Eq;
      try (unfold singleton; auto).
    pose proof (lookup_lt_Some _ _ _ Eq) as Hq.
    unfold singleton.
    cbn [Mediapipe.faceLandmarker Mediapipe.initPromise Mediapipe.promises
         Mediapipe.closed].
    assert (forall p st, st <> Mediapipe.Rejected ->
              <[q := Mediapipe.Rejected]> (Mediapipe.promises m) !! p = Some st ->
              Mediapipe.promises m !! p = Some st) as Hold.
    { intros p st Hst Hp. destruct (decide (p = q)) as [->|Hne].
      - rewrite list_lookup_insert_eq in Hp by exact Hq. congruence.
      - rewrite list_lookup_insert_ne in Hp by congruence. exact Hp. }
    split; [|split; [|split; [|split]]].
    + intros p Hp. apply HA, Hold; [discriminate|exact Hp].
    + intros p Hp. apply HB, Hold; [discriminate|exact Hp].
    + intros l Hl. destruct (HC l Hl) as [Hi Hl']. split; [exact Hi|].
      rewrite list_lookup_insert_ne; [exact Hl'|]. congruence.
    + intros p Hp. rewrite length_insert. apply HD, Hp.
    + intros l Hl. apply HE in Hl.
      rewrite list_lookup_insert_ne; [exact Hl|]. congruence.
  - unfold Mediapipe.destroyFaceLandmarker.
    destruct (Mediapipe.faceLandmarker m) as [l|] eqn:El;
      [|unfold singleton; rewrite El; auto].
    unfold singleton.
    cbn [Mediapipe.faceLandmarker Mediapipe.initPromise Mediapipe.promises
         Mediapipe.closed].
    split; [|split; [|split; [|split]]].
    + intros p Hp. destruct (HA p Hp) as [_ Hnone]. discriminate.
    + intros p Hp. right. split; [discriminate|].
      destruct (HB p Hp) as [[Hcur _]|[_ Hin]].
      * apply (inj Some) in Hcur as ->. apply elem_of_cons. left. reflexivity.
      * apply elem_of_cons. right. exact Hin.
    + intros l' Hl'. discriminate.
    + intros p Hp. discriminate.
    + intros l' Hl'. apply elem_of_cons in Hl' as [->|Hin].
      * apply (HC l eq_refl).
      * apply HE, Hin.
Qed.

Lemma singleton_run evs :
  forall m, singleton m -> singleton (Mediapipe.run evs m).
Proof.
  unfold Mediapipe.run.
  induction evs as [|ev evs IH]; intros m Hm; cbn [fold_left]; [exact Hm|].
  apply IH, singleton_step, Hm.
Qed.

(** The module state after a history of calls and settlements, from the
    state in which the module is loaded. *)
Definition reached (evs : list Mediapipe.Event) : Mediapipe.t :=
  Mediapipe.run evs Mediapipe.initial.

Lemma singleton_reached evs : singleton (reached evs).
Proof. apply singleton_run, singleton_initial. Qed.

Lemma failed_step ev m p :
  singleton m ->
  Mediapipe.initPromise m = Some p ->
  Mediapipe.promises m !! p = Some Mediapipe.Rejected ->
  Mediapipe.step ev m = m.
Proof.
  intros (HA & HB & HC & HD & HE) Hinit Hrej.
  assert (Mediapipe.faceLandmarker m = None) as Hnone.
  { destruct (Mediapipe.faceLandmarker m) as [l|] eqn:El; [|reflexivity].
    destruct (HC l eq_refl) as [Hl Hful]. congruence. }
  assert (forall q, Mediapipe.promises m !! q <> Some Mediapipe.Pending) as Hnp.
  { intros q Hq. destruct (HA q Hq) as [Hq' _]. congruence. }
  destruct ev as [|q|q|]; cbn [Mediapipe.step].
  - unfold Mediapipe.getOrCreateFaceLandmarker. rewrite Hnone, Hinit.
    reflexivity.
  - unfold Mediapipe.fulfil. specialize (Hnp q).
    destruct (Mediapipe.promises m !! q) as [[| |]|]; congruence.
  - unfold Mediapipe.reject. specialize (Hnp q).
    destruct (Mediapipe.promises m !! q) as [[| |]|]; congruence.
  - unfold Mediapipe.destroyFaceLandmarker. rewrite Hnone. reflexivity.
Qed.

(** X29 (lib/mediapipe.ts, getOrCreateFaceLandmarker and
    destroyFaceLandmarker).  After any history of calls to the two
    functions and of settlements of the init promises, in any order: at
    most one init promise is pending, and none while a landmarker is at
    hand; a landmarker that was created and not closed is the one in
    [faceLandmarker], so at most one is open; and the landmarker in
    [faceLandmarker] was never closed. *)
Theorem at_most_one_landmarker_is_open (evs : list Mediapipe.Event) :
  (forall p q,
      Mediapipe.promises (reached evs) !! p = Some Mediapipe.Pending ->
      Mediapipe.promises (reached evs) !! q = Some Mediapipe.Pending ->
      p = q)
  /\ (forall p,
        Mediapipe.promises (reached evs) !! p = Some Mediapipe.Pending ->
        Mediapipe.faceLandmarker (reached evs) = None)
  /\ (forall p,
        Mediapipe.promises (reached evs) !! p = Some Mediapipe.Fulfilled ->
        p ∉ Mediapipe.closed (reached evs) ->
        Mediapipe.faceLandmarker (reached evs) = Some p)
  /\ (forall l,
        Mediapipe.faceLandmarker (reached evs) = Some l ->
        l ∉ Mediapipe.closed (reached evs)).
Proof.
  destruct (singleton_reached evs) as (HA & HB & HC & HD & HE).
  split; [|split; [|split]].
  - intros p q Hp Hq.
    destruct (HA p Hp) as [Hp' _]. destruct (HA q Hq) as [Hq' _]. congruence.
  - intros p Hp. apply (HA p Hp).
  - intros p Hp Hopen.
    destruct (HB p Hp) as [[Hcur _]|[_ Hin]]; [exact Hcur|contradiction].
  - intros l Hl. destruct (HC l Hl) as [_ Hful].
    destruct (HB l Hful) as [[_ Hopen]|[Hne _]]; [exact Hopen|contradiction].
Qed.

(** X30 (lib/mediapipe.ts, getOrCreateFaceLandmarker and
    destroyFaceLandmarker).  Once the init promise in [initPromise] has
    rejected, the module is stuck: no later call or settlement changes its
    state, [destroyFaceLandmarker] included, and
    [getOrCreateFaceLandmarker] answers with that same rejected promise, so
    the initialisation is never tried again. *)
Theorem failed_initialisation_is_never_retried
  (evs later : list Mediapipe.Event) (p : nat) :
  Mediapipe.initPromise (reached evs) = Some p ->
  Mediapipe.promises (reached evs) !! p = Some Mediapipe.Rejected ->
  Mediapipe.run later (reached evs) = reached evs
  /\ Mediapipe.getOrCreateFaceLandmarker (reached evs)
     = (Mediapipe.Follows p, reached evs).
Proof.
  intros Hinit Hrej. pose proof (singleton_reached evs) as Hs. split.
  - unfold Mediapipe.run.
    induction later as [|ev later IH]; cbn [fold_left]; [reflexivity|].
    rewrite (failed_step ev _ p Hs Hinit Hrej). exact IH.
  - pose proof (failed_step Mediapipe.Acquire _ p Hs Hinit Hrej) as Hstep.
    cbn [Mediapipe.step] in Hstep.
    unfold Mediapipe.getOrCreateFaceLandmarker in *.
    destruct (Mediapipe.faceLandmarker (reached evs)) as [l|] eqn:El.
    + destruct Hs as (_ & _ & HC & _). destruct (HC l El) as [Hl Hful].
      congruence.
    + rewrite Hinit. reflexivity.
Qed.

Lemma failed_initialisation_is_never_retried_witness :
  Mediapipe.run
    [Mediapipe.Destroy; Mediapipe.Acquire; Mediapipe.Fulfil 0%nat]
    (reached [Mediapipe.Acquire; Mediapipe.Reject 0%nat])
  = reached [Mediapipe.Acquire; Mediapipe.Reject 0%nat]
  /\ Mediapipe.getOrCreateFaceLandmarker
       (reached [Mediapipe.Acquire; Mediapipe.Reject 0%nat])
     = (Mediapipe.Follows 0%nat,
        reached [Mediapipe.Acquire; Mediapipe.Reject 0%nat]).
Proof.
  apply (failed_initialisation_is_never_retried
           [Mediapipe.Acquire; Mediapipe.Reject 0%nat]
           [Mediapipe.Destroy; Mediapipe.Acquire; Mediapipe.Fulfil 0%nat]
           0%nat); reflexivity.
Defined.
